(** * unpack-dataset.py: a shallow embedding and its properties

    The script unpacks a dataset shipped as nested [.tar.xz] archives,
    checking SHA-256 companions before it extracts.  This development
    embeds the script function by function:

    - Python text ([str]) is a list of Unicode code points, bytes are
      [Byte.byte], path strings are [string];
    - the file system is a finite map from absolute, normalised paths to
      nodes (regular file or directory).  The model has no symbolic links,
      no permissions and no limit on the length of a name, so
      [Path.resolve] is lexical normalisation and the only operating-system
      errors are the structural ones (missing entry, entry of the wrong
      kind, entry already there);
    - statements run in a state-and-exception monad over the world (file
      system, working directory, console);
    - [hashlib], [tarfile], [lzma], the text codec, [expanduser] and the
      memory allocator are outside the script: they are the fields of the
      [Platform] class, with the laws their documentation promises. *)

From Stdlib Require Import ZArith NArith Ascii String List Lia Bool.
From Stdlib.Strings Require Import Byte.
From stdpp Require Import base option list strings gmap sorting.
From Equations Require Import Equations.

Import ListNotations.
Local Open Scope string_scope.
Local Open Scope list_scope.

(* ===================================================================== *)
(** * Python values *)
(* ===================================================================== *)

(** A Python [str] is a sequence of Unicode code points. *)
Definition char := N.
Definition text := list char.

(** Text literal from an ASCII string. *)
Fixpoint text_of (s : string) : text :=
  match s with
  | EmptyString => []
  | String a s' => N_of_ascii a :: text_of s'
  end.

Definition bytes := list byte.

Fixpoint bytes_of (s : string) : bytes :=
  match s with
  | EmptyString => []
  | String a s' => byte_of_ascii a :: bytes_of s'
  end.

(** Exceptions the script can meet.  [Blocked n] is the plain [Exception]
    raised for a refused member; every constructor is an [Exception]
    subclass, and only [ReadError] is a [tarfile.ReadError]. *)
Inductive exn : Type :=
| FileNotFoundError
| FileExistsError
| NotADirectoryError
| IsADirectoryError
| IndexError
| ReadError
| LZMAError
| ExtractError
| ValueError
| OverflowError
| MemoryError
| Blocked (member : string).

Inductive Result (A : Type) : Type :=
| Ok (a : A)
| Raise (e : exn).
Arguments Ok {A} a.
Arguments Raise {A} e.

(* ===================================================================== *)
(** * str methods used by the checksum reader *)
(* ===================================================================== *)

Module Str.

(** [str.isspace] on one code point. *)
Definition isspace (c : char) : bool :=
  ((9 <=? c) && (c <=? 13) || (28 <=? c) && (c <=? 32)
   || (c =? 133) || (c =? 160) || (c =? 5760)
   || (8192 <=? c) && (c <=? 8202)
   || (c =? 8232) || (c =? 8233) || (c =? 8239) || (c =? 8287)
   || (c =? 12288))%N.

(** Line boundaries of [str.splitlines] (a CR LF pair counts once). *)
Definition islinebreak (c : char) : bool :=
  ((10 <=? c) && (c <=? 13) || (28 <=? c) && (c <=? 30)
   || (c =? 133) || (c =? 8232) || (c =? 8233))%N.

Fixpoint lstrip (t : text) : text :=
  match t with
  | [] => []
  | c :: t' => if isspace c then lstrip t' else t
  end.

Definition rstrip (t : text) : text := rev (lstrip (rev t)).

Definition strip (t : text) : text := rstrip (lstrip t).

(** [splitlines]: [cur] is the line being read, in reverse. *)
Fixpoint splitlines_aux (cur : text) (t : text) : list text :=
  match t with
  | [] => match cur with [] => [] | _ => [rev cur] end
  | c :: t' =>
      if islinebreak c then
        match t' with
        | d :: t'' =>
            if ((c =? 13) && (d =? 10))%N
            then rev cur :: splitlines_aux [] t''
            else rev cur :: splitlines_aux [] t'
        | [] => [rev cur]
        end
      else splitlines_aux (c :: cur) t'
  end.

Definition splitlines (t : text) : list text := splitlines_aux [] t.

(** [split()] without argument: runs of non-space characters. *)
Fixpoint split_aux (cur : text) (t : text) : list text :=
  match t with
  | [] => match cur with [] => [] | _ => [rev cur] end
  | c :: t' =>
      if isspace c then
        match cur with
        | [] => split_aux [] t'
        | _ => rev cur :: split_aux [] t'
        end
      else split_aux (c :: cur) t'
  end.

Definition split (t : text) : list text := split_aux [] t.

(** [c.lower() in "0123456789abcdef"]: the only code points whose
    lower-case form is a substring of the digit string are the ASCII
    hexadecimal digits. *)
Definition ishex (c : char) : bool :=
  ((48 <=? c) && (c <=? 57) || (65 <=? c) && (c <=? 70)
   || (97 <=? c) && (c <=? 102))%N.

(** [str.lower] on the ASCII range.  Both operands the script lowers are
    made of hexadecimal digits, where this is all of [str.lower]. *)
Definition lower1 (c : char) : char :=
  if ((65 <=? c) && (c <=? 90))%N then (c + 32)%N else c.

Definition lower (t : text) : text := map lower1 t.

(** [seq[0]] *)
Definition item0 {A} (l : list A) : Result A :=
  match l with
  | [] => Raise IndexError
  | x :: _ => Ok x
  end.

End Str.

(* ===================================================================== *)
(** * Paths (pathlib on POSIX) *)
(* ===================================================================== *)

Definition sep : ascii := "/"%char.

(** A pure path: whether it is anchored at the root, and its components.
    Parsing never leaves an empty or ["."] component. *)
Record Path : Type := mkPath { anchored : bool; parts : list string }.

Module PathOps.

(** Split a string at every separator. *)
Fixpoint split_sep (cur : string) (s : string) : list string :=
  match s with
  | EmptyString => [cur]
  | String a s' =>
      if Ascii.eqb a sep then cur :: split_sep EmptyString s'
      else split_sep (cur ++ String a EmptyString) s'
  end.

Definition keep_part (c : string) : bool :=
  negb (String.eqb c "" || String.eqb c ".").

Definition starts_with_sep (s : string) : bool :=
  match s with
  | String a _ => Ascii.eqb a sep
  | EmptyString => false
  end.

(** [Path(s)] *)
Definition parse (s : string) : Path :=
  mkPath (starts_with_sep s) (List.filter keep_part (split_sep "" s)).

(** [p / s]: an anchored right operand replaces the left one. *)
Definition join (p : Path) (s : string) : Path :=
  let q := parse s in
  if anchored q then q else mkPath (anchored p) (parts p ++ parts q).

(** [p.name] *)
Definition name (p : Path) : string := List.last (parts p) "".

(** One step of lexical normalisation; [".."] at the root stays there. *)
Definition step (cur : list string) (c : string) : list string :=
  if String.eqb c ".." then removelast cur else cur ++ [c].

Definition normalize (start : list string) (ps : list string) : list string :=
  fold_left step ps start.

(** [p.resolve()] in a file system without symbolic links, as the list of
    components of the absolute result. *)
Definition resolve (cwd : list string) (p : Path) : list string :=
  normalize (if anchored p then [] else cwd) (parts p).

(** [str] of an absolute path given by its components. *)
Fixpoint concat_parts (k : list string) : string :=
  match k with
  | [] => ""
  | c :: k' => String sep (c ++ concat_parts k')
  end.

Definition str_abs (k : list string) : string :=
  match k with
  | [] => String sep ""
  | _ => concat_parts k
  end.

(** [s.startswith(p)] *)
Definition startswith (s p : string) : bool := String.prefix p s.

(** [s.endswith(x)] *)
Definition endswith (s x : string) : bool :=
  (String.length x <=? String.length s)%nat
  && String.eqb (substring (String.length s - String.length x) (String.length x) s) x.

(** [s[:-n]] for [n > 0] *)
Definition drop_last (n : nat) (s : string) : string :=
  substring 0 (String.length s - n) s.

End PathOps.

Notation "p // s" := (PathOps.join p s) (at level 40, left associativity).

(** ** os.path on POSIX, for the two helpers that use it *)

Module OsPath.

Fixpoint ends_with_sep (s : string) : bool :=
  match s with
  | EmptyString => false
  | String a EmptyString => Ascii.eqb a sep
  | String _ s' => ends_with_sep s'
  end.

(** [os.path.join(a, b)] *)
Definition join (a b : string) : string :=
  if PathOps.starts_with_sep b then b
  else if String.eqb a "" || ends_with_sep a then (a ++ b)%string
  else (a ++ String sep b)%string.

(** [os.path.abspath(p)], as the components of the result: a relative path
    is joined to the working directory, then [normpath] drops empty and
    ["."] components and resolves [".."] lexically. *)
Definition abspath (cwd : list string) (p : string) : list string :=
  PathOps.resolve cwd (PathOps.parse p).

Fixpoint common_prefix (a b : list string) : list string :=
  match a, b with
  | x :: a', y :: b' => if String.eqb x y then x :: common_prefix a' b' else []
  | _, _ => []
  end.

(** [os.path.commonpath(paths)] for absolute paths given by their
    components: the separator followed by the joined common components.
    (The empty sequence, a [ValueError] in Python, does not occur.) *)
Definition commonpath (paths : list (list string)) : string :=
  match paths with
  | [] => ""
  | p :: ps => PathOps.str_abs (fold_left common_prefix ps p)
  end.

End OsPath.

(* ===================================================================== *)
(** * The world: file system, working directory, console *)
(* ===================================================================== *)

Inductive node : Type :=
| File (content : bytes)
| Dir.

(** One constructor per [print] of the script, with the values it formats. *)
Inductive Msg : Type :=
| MsgChecksumMissingExtract (arc sha : string)
| MsgChecksumInvalidExtract (arc sha : string)
| MsgChecksumMissingSkip (arc sha : string)
| MsgChecksumInvalidSkip (arc sha : string)
| MsgChecksumFailed (arc : string) (expected actual : text)
| MsgChecksumPassed (arc : string)
| MsgExtractedTarXz (arc : string) (dest : Path)
| MsgDecompressedRaw (arc : string) (dest : Path)
| MsgExtracted (arc : string) (dest : Path)
| MsgExtractError (arc : string) (e : exn)
| MsgNoChecksumDir (src : Path)
| MsgNoArchives (src : Path)
| MsgDone (src : string) (ok total : Z)
| MsgTopLevelNotFound (name : string) (src : Path)
| MsgNotADirectory (src : Path).

(** Keys of the file system are absolute normalised paths; the root (the
    empty key) is always a directory. *)
Record World : Type := mkWorld {
  fs : gmap (list string) node;
  cwd : list string;
  out : list Msg
}.

Definition set_fs (w : World) (f : gmap (list string) node) : World :=
  mkWorld f (cwd w) (out w).

(** ** The monad of statements: state and exceptions *)

Definition M (A : Type) : Type := World -> Result A * World.

Definition ret {A} (a : A) : M A := fun w => (Ok a, w).

Definition raise {A} (e : exn) : M A := fun w => (Raise e, w).

Definition bind {A B} (m : M A) (k : A -> M B) : M B :=
  fun w =>
    match m w with
    | (Ok a, w') => k a w'
    | (Raise e, w') => (Raise e, w')
    end.

(** [try: m  except Exception as e: h e] *)
Definition try_except {A} (m : M A) (h : exn -> M A) : M A :=
  fun w =>
    match m w with
    | (Ok a, w') => (Ok a, w')
    | (Raise e, w') => h e w'
    end.

(** [try: m  except tarfile.ReadError: h]; other exceptions pass through. *)
Definition try_except_ReadError {A} (m : M A) (h : M A) : M A :=
  fun w =>
    match m w with
    | (Ok a, w') => (Ok a, w')
    | (Raise ReadError, w') => h w'
    | (Raise e, w') => (Raise e, w')
    end.

Definition lift {A} (r : Result A) : M A := fun w => (r, w).

Definition get_world : M World := fun w => (Ok w, w).

Definition print (m : Msg) : M unit :=
  fun w => (Ok tt, mkWorld (fs w) (cwd w) (out w ++ [m])).

Declare Scope py_scope.
Delimit Scope py_scope with py.
Notation "x <- m ;; k" := (bind m (fun x => k))
  (at level 100, m at next level, right associativity) : py_scope.
Notation "m ;;; k" := (bind m (fun _ => k))
  (at level 100, right associativity) : py_scope.
Local Open Scope py_scope.

(* ===================================================================== *)
(** * Operating-system calls *)
(* ===================================================================== *)

Module Os.

Definition node_at (f : gmap (list string) node) (k : list string) : option node :=
  match k with
  | [] => Some Dir
  | _ => f !! k
  end.

(** Path lookup as the kernel does it: every component is looked up in a
    directory that must exist.  The last component itself may be absent. *)
Fixpoint walk (f : gmap (list string) node) (cur : list string) (ps : list string)
  : Result (list string) :=
  match ps with
  | [] => Ok cur
  | c :: ps' =>
      match node_at f cur with
      | Some Dir => walk f (PathOps.step cur c) ps'
      | Some (File _) => Raise NotADirectoryError
      | None => Raise FileNotFoundError
      end
  end.

Definition locate (w : World) (p : Path) : Result (list string) :=
  walk (fs w) (if anchored p then [] else cwd w) (parts p).

(** [p.exists()]: a missing entry or a file on the way is [False].  (The
    call raises for a name longer than the file system allows; worlds have
    no such limit, and statements about code that calls it assume the call
    returned.) *)
Definition exists_ (p : Path) : M bool :=
  fun w =>
    match locate w p with
    | Ok k => (Ok (match node_at (fs w) k with Some _ => true | None => false end), w)
    | Raise _ => (Ok false, w)
    end.

(** [p.is_dir()], with the same proviso. *)
Definition is_dir (p : Path) : M bool :=
  fun w =>
    match locate w p with
    | Ok k => (Ok (match node_at (fs w) k with Some Dir => true | _ => false end), w)
    | Raise _ => (Ok false, w)
    end.

(** [open(p, "rb")] followed by reading: the content of a regular file. *)
Definition open_rb (p : Path) : M bytes :=
  fun w =>
    match locate w p with
    | Ok k =>
        match node_at (fs w) k with
        | Some (File c) => (Ok c, w)
        | Some Dir => (Raise IsADirectoryError, w)
        | None => (Raise FileNotFoundError, w)
        end
    | Raise e => (Raise e, w)
    end.

(** [open(p, "wb")]: creates or truncates; the handle is the key. *)
Definition open_wb (p : Path) : M (list string) :=
  fun w =>
    match locate w p with
    | Ok k =>
        match node_at (fs w) k with
        | Some Dir => (Raise IsADirectoryError, w)
        | _ => (Ok k, set_fs w (<[k := File []]> (fs w)))
        end
    | Raise e => (Raise e, w)
    end.

(** [fout.write(chunk)] *)
Definition write (k : list string) (chunk : bytes) : M unit :=
  fun w =>
    match fs w !! k with
    | Some (File c) => (Ok tt, set_fs w (<[k := File (c ++ chunk)]> (fs w)))
    | _ => (Ok tt, w)
    end.

(** [os.mkdir(p)] *)
Definition mkdir1 (p : Path) : M unit :=
  fun w =>
    match parts p with
    | [] => (Raise FileExistsError, w)
    | _ =>
        match locate w p with
        | Ok k =>
            match node_at (fs w) k with
            | Some _ => (Raise FileExistsError, w)
            | None => (Ok tt, set_fs w (<[k := Dir]> (fs w)))
            end
        | Raise e => (Raise e, w)
        end
    end.

(** [p.mkdir(parents=True, exist_ok=True)], following pathlib: try
    [os.mkdir]; on a missing parent create the parent first and retry; on
    any other [OSError] succeed exactly when [p] is a directory.  [rps] is
    [parts p] reversed, so that the parent is a structural subterm. *)
Fixpoint mkdir_rev (anch : bool) (rps : list string) : M unit :=
  let p := mkPath anch (rev rps) in
  fun w =>
    match mkdir1 p w with
    | (Ok tt, w') => (Ok tt, w')
    | (Raise FileNotFoundError, w') =>
        match rps with
        | [] => (Raise FileNotFoundError, w')
        | _ :: rps' =>
            (mkdir_rev anch rps' ;;;
             try_except (mkdir1 p)
               (fun e => d <- is_dir p ;; if d then ret tt else raise e)) w'
        end
    | (Raise e, w') =>
        (d <- is_dir p ;; if d then ret tt else raise e) w'
    end.

Definition mkdir_parents (p : Path) : M unit :=
  mkdir_rev (anchored p) (rev (parts p)).

(** Names of the entries of directory [k] ending in [suffix], sorted:
    [sorted(p.glob("*" + suffix))] keeps every kind of entry.  Names are
    compared byte by byte, which is the order of the paths when the names
    are valid UTF-8. *)
Definition is_child (k : list string) (suffix : string) (e : list string) : option string :=
  match List.last (map Some e) None with
  | Some n =>
      if bool_decide (e = k ++ [n]) && PathOps.endswith n suffix then Some n else None
  | None => None
  end.

Definition str_le (a b : string) : Prop := String.leb a b = true.
#[global] Instance str_le_dec a b : Decision (str_le a b).
Proof. unfold str_le. apply _. Defined.

Definition glob_sorted (p : Path) (suffix : string) : M (list Path) :=
  fun w =>
    match locate w p with
    | Ok k =>
        match node_at (fs w) k with
        | Some Dir =>
            let names := omap (fun kv => is_child k suffix (fst kv)) (map_to_list (fs w)) in
            (Ok (map (fun n => mkPath (anchored p) (parts p ++ [n])) (merge_sort str_le names)), w)
        | _ => (Ok [], w)
        end
    | Raise _ => (Ok [], w)
    end.

End Os.

(* ===================================================================== *)
(** * Library code outside the script *)
(* ===================================================================== *)

Module Tarfile.
(** [tarfile.TarInfo]: the script reads nothing but the name. *)
Record TarInfo : Type := mkTarInfo { name : string; payload : bytes }.
End Tarfile.

(** The libraries and platform choices the script relies on.
    - [sha256]: the SHA-256 function from bytes to the 32 digest bytes;
    - [decode_ignore]: the text codec of [read_text(errors="ignore")];
    - [expanduser]: [os.path.expanduser];
    - [tarfile_open], [getmembers], [extractall]: [tarfile] on the bytes of
      an archive opened with mode ["r:xz"]; [extractall] works on the file
      system below the working directory and never removes or replaces a
      directory;
    - [lzma_stream]: what reading an [lzma] stream delivers, and whether the
      stream ends cleanly ([false]: the read after the last byte raises);
    - [malloc]: whether the allocator grants a buffer of that many bytes;
      a buffer of up to 1 MiB, the size the script reads with, is granted. *)
Class Platform : Type := {
  sha256 : bytes -> bytes;
  decode_ignore : bytes -> text;
  expanduser : string -> string;
  TarFile : Type;
  tarfile_open : bytes -> Result TarFile;
  getmembers : TarFile -> Result (list Tarfile.TarInfo);
  extractall : TarFile -> Path -> list string -> gmap (list string) node
               -> Result unit * gmap (list string) node;
  extractall_keeps_dirs :
    forall tf p c f r f', extractall tf p c f = (r, f') ->
      forall k, f !! k = Some Dir -> f' !! k = Some Dir;
  lzma_stream : bytes -> bytes * bool;
  malloc : Z -> bool;
  malloc_chunk : forall n, (0 <= n <= 1024 * 1024)%Z -> malloc n = true
}.

(** ** hashlib: the hash object is the data fed so far *)

Module Hashlib.

Definition hexdigit (n : N) : char :=
  if (n <? 10)%N then (48 + n)%N else (87 + n)%N.

Definition hex_of_byte (b : byte) : text :=
  let n := Byte.to_N b in [hexdigit (n / 16); hexdigit (n mod 16)].

Definition hex_of_bytes (bs : bytes) : text := flat_map hex_of_byte bs.

Definition new : bytes := [].
Definition update (h : bytes) (b : bytes) : bytes := h ++ b.
Definition hexdigest `{Platform} (h : bytes) : text := hex_of_bytes (sha256 h).

End Hashlib.

(** Remember the equation when matching on a computed value. *)
Definition inspect {A} (a : A) : {b : A | a = b} := exist _ a eq_refl.

(** The bounds of [Py_ssize_t] on a 64-bit build. *)
Definition PY_SSIZE_T_MAX : Z := 9223372036854775807.
Definition PY_SSIZE_T_MIN : Z := -9223372036854775808.

(** [f.read(n)] on the rest of a buffered binary stream: what is read, what
    remains.  The size must fit [Py_ssize_t] and leave room for the 33
    bytes of the header of the [bytes] object ([OverflowError] otherwise);
    [-1] reads everything and any other negative size is a [ValueError]; a
    positive size allocates the whole buffer before it reads
    ([MemoryError] when the allocator refuses). *)
Definition read_chunk `{Platform} (n : Z) (rest : bytes) : Result (bytes * bytes) :=
  if ((n <? PY_SSIZE_T_MIN) || (PY_SSIZE_T_MAX - 33 <? n))%Z then Raise OverflowError
  else if (n <? -1)%Z then Raise ValueError
  else if (n =? -1)%Z then Ok (rest, [])
  else if (n =? 0)%Z then Ok ([], rest)
  else if malloc n then Ok (take (Z.to_nat n) rest, drop (Z.to_nat n) rest)
  else Raise MemoryError.

(** Closes the termination goal of a chunked loop: a non-empty chunk was
    taken off the stream. *)
Ltac chunk_decreases :=
  match goal with
  | H : read_chunk ?n ?rest = Ok (_ :: _, _) |- _ =>
      let F := fresh "F" in
      assert (F : forall (P : Platform) m (r b r' : bytes),
                 @read_chunk P m r = Ok (b, r') -> b <> [] -> (length r' < length r)%nat);
      [ clear; intros P m r b r'; unfold read_chunk;
        destruct ((m <? PY_SSIZE_T_MIN) || (PY_SSIZE_T_MAX - 33 <? m))%Z; [discriminate|];
        destruct (m <? -1)%Z; [discriminate|];
        destruct (m =? -1)%Z;
        [ intros [= <- <-] Hb; destruct r; [congruence | simpl; lia] |];
        destruct (m =? 0)%Z eqn:E0; [intros [= <- <-] Hb; congruence|];
        destruct (malloc m); [|discriminate];
        intros [= <- <-] Hb; rewrite length_drop;
        destruct r, (Z.to_nat m); simpl in *; try congruence; lia
      | eapply F; [exact H | discriminate] ]
  end.

(* ===================================================================== *)
(** * The script *)
(* ===================================================================== *)

Section Script.
Context `{Platform}.

(** ** sha256_file (lines 16-24) *)

(** The [while True] loop over the open file: [rest] is what the file
    object has not delivered yet, [h] the hash object. *)
Equations? sha256_loop (bufsize : Z) (rest : bytes) (h : bytes) : Result bytes
  by wf (length rest) lt :=
  sha256_loop bufsize rest h with inspect (read_chunk bufsize rest) := {
    | exist _ (Raise e) _ => Raise e
    | exist _ (Ok ([], _)) _ => Ok h
    | exist _ (Ok (b :: bs, rest')) _ =>
        sha256_loop bufsize rest' (Hashlib.update h (b :: bs)) }.
Proof. chunk_decreases. Qed.

Definition sha256_file_buf (path : Path) (bufsize : Z) : M text :=
  f <- Os.open_rb path ;;
  h <- lift (sha256_loop bufsize f Hashlib.new) ;;
  ret (Hashlib.hexdigest h).

(** With the default [bufsize=1024 * 1024]. *)
Definition sha256_file (path : Path) : M text :=
  sha256_file_buf path (1024 * 1024).

(** ** read_expected_sha256 (lines 26-44) *)

(** The body of the [try], from the text read to the value returned. *)
Definition parse_expected (raw : text) : Result (option text) :=
  let text := Str.strip raw in
  match text with
  | [] => Ok None
  | _ =>
      match Str.item0 (Str.splitlines text) with
      | Raise e => Raise e
      | Ok line =>
          let first_line := Str.strip line in
          match Str.item0 (Str.split first_line) with
          | Raise e => Raise e
          | Ok token =>
              let token := Str.strip token in
              let token := List.filter Str.ishex token in
              Ok (if (length token =? 64)%nat then Some token else None)
          end
      end
  end.

Definition read_expected_sha256 (sha256_path : Path) : M (option text) :=
  try_except
    (raw <- Os.open_rb sha256_path ;;
     lift (parse_expected (decode_ignore raw)))
    (fun _ => ret None).

(** ** is_within_directory (lines 46-50) and safe_extract (lines 52-57)

    The script defines these two helpers and never calls them. *)

Definition is_within_directory (directory target : string) : M bool :=
  w <- get_world ;;
  let abs_directory := OsPath.abspath (cwd w) directory in
  let abs_target := OsPath.abspath (cwd w) target in
  ret (String.eqb (OsPath.commonpath [abs_directory])
                  (OsPath.commonpath [abs_directory; abs_target])).

(** The [for member in tar.getmembers()] loop of lines 53-56. *)
Fixpoint safe_extract_check (path : string) (ms : list Tarfile.TarInfo) : M unit :=
  match ms with
  | [] => ret tt
  | member :: ms' =>
      let target_path := OsPath.join path (Tarfile.name member) in
      b <- is_within_directory path target_path ;;
      if negb b then raise (Blocked (Tarfile.name member))
      else safe_extract_check path ms'
  end.

(** ** extract_tar_xz (lines 59-89) *)

(** [tarfile.open(archive_path, mode="r:xz")] *)
Definition tarfile_open_path (archive_path : Path) : M TarFile :=
  c <- Os.open_rb archive_path ;;
  lift (tarfile_open c).

(** [tf.extractall(dest_dir)] *)
Definition tarfile_extractall (tf : TarFile) (dest_dir : Path) : M unit :=
  fun w =>
    let '(r, f') := extractall tf dest_dir (cwd w) (fs w) in
    (r, set_fs w f').

(** [safe_extract] (lines 52-57): [tar.extractall(path)] after the loop. *)
Definition safe_extract (tar : TarFile) (path : string) : M unit :=
  ms <- lift (getmembers tar) ;;
  safe_extract_check path ms ;;;
  tarfile_extractall tar (PathOps.parse path).

(** The test of line 69 for one member: [true] when the member passes. *)
Definition member_ok (c : list string) (dest_dir : Path) (m : Tarfile.TarInfo) : bool :=
  let target := dest_dir // Tarfile.name m in
  PathOps.startswith (PathOps.str_abs (PathOps.resolve c target))
    (PathOps.str_abs (PathOps.resolve c dest_dir) ++ String sep "").

(** The [for m in tf.getmembers()] loop of lines 67-70. *)
Fixpoint check_members (dest_dir : Path) (ms : list Tarfile.TarInfo) : M unit :=
  match ms with
  | [] => ret tt
  | m :: ms' =>
      w <- get_world ;;
      if negb (member_ok (cwd w) dest_dir m)
      then raise (Blocked (Tarfile.name m))
      else check_members dest_dir ms'
  end.

(** [lzma.open(archive_path, "rb")]: the stream left to read. *)
Definition lzma_open (archive_path : Path) : M (bytes * bool) :=
  c <- Os.open_rb archive_path ;;
  ret (lzma_stream c).

(** The copy loop of lines 84-88, reading [size] bytes at a time; [fin]
    is (data left, clean end). *)
Equations? copy_loop (size : Z) (rest : bytes) (clean : bool) (fout : list string)
  : M unit by wf (length rest) lt :=
  copy_loop size rest clean fout with inspect (read_chunk size rest) := {
    | exist _ (Raise e) _ => raise e
    | exist _ (Ok ([], _)) _ => if clean then ret tt else raise LZMAError
    | exist _ (Ok (b :: bs, rest')) _ =>
        Os.write fout (b :: bs) ;;; copy_loop size rest' clean fout }.
Proof. chunk_decreases. Qed.

(** Lines 76-80: the name of the raw output. *)
Definition raw_out_name (archive_name : string) : string :=
  let out_name := archive_name in
  let out_name :=
    if PathOps.endswith out_name ".xz" then PathOps.drop_last 3 out_name else out_name in
  let out_name :=
    if PathOps.endswith out_name ".tar" then PathOps.drop_last 4 out_name else out_name in
  out_name.

(** Lines 65-74: the [try] block; [None] when [ReadError] was swallowed. *)
Definition extract_container (archive_path dest_dir : Path) : M (option string) :=
  try_except_ReadError
    (tf <- tarfile_open_path archive_path ;;
     ms <- lift (getmembers tf) ;;
     check_members dest_dir ms ;;;
     tarfile_extractall tf dest_dir ;;;
     ret (Some "tarxz"))
    (ret None).

(** Lines 76-89: the raw fallback. *)
Definition extract_raw (archive_path dest_dir : Path) : M string :=
  let raw_out := dest_dir // raw_out_name (PathOps.name archive_path) in
  fin <- lzma_open archive_path ;;
  fout <- Os.open_wb raw_out ;;
  copy_loop (1024 * 1024) (fst fin) (snd fin) fout ;;;
  ret "rawxz".

Definition extract_tar_xz (archive_path dest_dir : Path) : M string :=
  Os.mkdir_parents dest_dir ;;;
  r <- extract_container archive_path dest_dir ;;
  match r with
  | Some kind => ret kind
  | None => extract_raw archive_path dest_dir
  end.

(** ** process_top_level (lines 91-124) *)

(** Lines 115-124, shared by every exit of the checksum part that goes on
    to extract. *)
Definition extract_and_report (archive_path dest_dir : Path) : M Z :=
  let arc_name := PathOps.name archive_path in
  try_except
    (kind <- extract_tar_xz archive_path dest_dir ;;
     (if String.eqb kind "tarxz"
      then print (MsgExtractedTarXz arc_name dest_dir)
      else print (MsgDecompressedRaw arc_name dest_dir)) ;;;
     ret 1%Z)
    (fun e => print (MsgExtractError arc_name e) ;;; ret 0%Z).

Definition process_top_level (archive_path dest_dir : Path) (checksum_dir : option Path)
  : M Z :=
  let arc_name := PathOps.name archive_path in
  has_checksums <-
    match checksum_dir with
    | None => ret false
    | Some d => Os.is_dir d
    end ;;
  match checksum_dir, has_checksums with
  | Some d, true =>
      let sha_name := (arc_name ++ ".sha256")%string in
      let sha_file := d // sha_name in
      e <- Os.exists_ sha_file ;;
      if negb e then
        print (MsgChecksumMissingExtract arc_name (PathOps.name sha_file)) ;;;
        extract_and_report archive_path dest_dir
      else
        expected <- read_expected_sha256 sha_file ;;
        match expected with
        | None =>
            print (MsgChecksumInvalidExtract arc_name (PathOps.name sha_file)) ;;;
            extract_and_report archive_path dest_dir
        | Some expected =>
            actual <- sha256_file archive_path ;;
            if negb (bool_decide (Str.lower actual = Str.lower expected)) then
              print (MsgChecksumFailed arc_name expected actual) ;;;
              ret 0%Z
            else
              print (MsgChecksumPassed arc_name) ;;;
              extract_and_report archive_path dest_dir
        end
  | _, _ => extract_and_report archive_path dest_dir
  end.

(** ** process_subdir (lines 126-181) *)

(** Lines 163-171: extraction of a verified archive. *)
Definition extract_verified (arc out_subdir : Path) : M bool :=
  let arc_name := PathOps.name arc in
  try_except
    (kind <- extract_tar_xz arc out_subdir ;;
     (if String.eqb kind "tarxz"
      then print (MsgExtractedTarXz arc_name out_subdir)
      else print (MsgDecompressedRaw arc_name out_subdir)) ;;;
     ret true)
    (fun e => print (MsgExtractError arc_name e) ;;; ret false).

(** Lines 173-178: extraction without checksums. *)
Definition extract_unchecked (arc out_subdir : Path) : M bool :=
  let arc_name := PathOps.name arc in
  try_except
    (extract_tar_xz arc out_subdir ;;;
     print (MsgExtracted arc_name out_subdir) ;;;
     ret true)
    (fun e => print (MsgExtractError arc_name e) ;;; ret false).

(** The body of the [for arc in archives] loop after [total += 1]; the
    result tells whether [ok += 1] was reached ([continue] gives [false]). *)
Definition process_archive (has_checksums : bool) (checksum_dir extracted_dest_dir arc : Path)
  : M bool :=
  let arc_name := PathOps.name arc in
  let out_subdir := extracted_dest_dir in
  if has_checksums then
    let sha_file := checksum_dir // (arc_name ++ ".sha256")%string in
    e <- Os.exists_ sha_file ;;
    if negb e then
      print (MsgChecksumMissingSkip arc_name (PathOps.name sha_file)) ;;; ret false
    else
      expected <- read_expected_sha256 sha_file ;;
      match expected with
      | None =>
          print (MsgChecksumInvalidSkip arc_name (PathOps.name sha_file)) ;;; ret false
      | Some expected =>
          actual <- sha256_file arc ;;
          if negb (bool_decide (Str.lower actual = Str.lower expected)) then
            print (MsgChecksumFailed arc_name expected actual) ;;; ret false
          else
            print (MsgChecksumPassed arc_name) ;;;
            extract_verified arc out_subdir
      end
  else extract_unchecked arc out_subdir.

(** The loop, carrying [total] and [ok]. *)
Fixpoint process_archives (has_checksums : bool) (checksum_dir extracted_dest_dir : Path)
    (archives : list Path) (total ok : Z) : M (Z * Z) :=
  match archives with
  | [] => ret (total, ok)
  | arc :: archives' =>
      let total := (total + 1)%Z in
      b <- process_archive has_checksums checksum_dir extracted_dest_dir arc ;;
      process_archives has_checksums checksum_dir extracted_dest_dir archives' total
        (if b then (ok + 1)%Z else ok)
  end.

Definition process_subdir (src_dir dest_dir extracted_dest_dir : Path) : M Z :=
  let checksum_dir := src_dir // "checksums" in
  has_checksums <- Os.is_dir checksum_dir ;;
  (if negb has_checksums then print (MsgNoChecksumDir src_dir) else ret tt) ;;;
  archives <- Os.glob_sorted src_dir ".tar.xz" ;;
  match archives with
  | [] => print (MsgNoArchives src_dir) ;;; ret 0%Z
  | _ =>
      r <- process_archives has_checksums checksum_dir extracted_dest_dir archives 0 0 ;;
      print (MsgDone (PathOps.name src_dir) (snd r) (fst r)) ;;;
      ret (snd r)
  end.

(** ** process (lines 183-214) *)

(** Lines 202-214: the two subdirectories, after a good top level. *)
Definition process_subdirs (extracted_src dest_dir : Path) : M Z :=
  let attack_data_dir := extracted_src // "attack_data" in
  d <- Os.is_dir attack_data_dir ;;
  (if d then
     process_subdir attack_data_dir attack_data_dir (dest_dir // "extracted_attack_data") ;;;
     ret tt
   else ret tt) ;;;
  let benign_data_dir := extracted_src // "benign_data" in
  d <- Os.is_dir benign_data_dir ;;
  (if d then
     process_subdir benign_data_dir benign_data_dir (dest_dir // "extracted_benign_data") ;;;
     ret tt
   else ret tt) ;;;
  ret 0%Z.

(** [process]: the local [checksum_dir] of line 193 is the constant
    [None]; the value is 1 as soon as [process_top_level] gives anything
    but 1. *)
Definition process (src_dir dest_dir : Path) (top_level_archive_name : string) : M Z :=
  Os.mkdir_parents dest_dir ;;;
  let top_level_archive := src_dir // top_level_archive_name in
  e <- Os.exists_ top_level_archive ;;
  if e then
    let checksum_dir : option Path := None in
    r <- process_top_level top_level_archive dest_dir checksum_dir ;;
    if (r =? 1)%Z then
      let extracted_src := dest_dir in
      process_subdirs extracted_src dest_dir
    else ret 1%Z
  else
    print (MsgTopLevelNotFound top_level_archive_name src_dir) ;;;
    ret 1%Z.

(** ** main (lines 216-231) *)

(** [Path(os.path.expanduser(s)).resolve()] *)
Definition resolved_arg (s : string) : M Path :=
  w <- get_world ;;
  ret (mkPath true (PathOps.resolve (cwd w) (PathOps.parse (expanduser s)))).

(** The value is the argument of [sys.exit]. *)
Definition main (src_dir : string) (dest_dir : option string) : M Z :=
  src <- resolved_arg src_dir ;;
  d <- Os.is_dir src ;;
  if negb d then
    print (MsgNotADirectory src) ;;;
    ret 2%Z
  else
    dest <- match dest_dir with
            | Some s => if String.eqb s "" then ret src else resolved_arg s
            | None => ret src
            end ;;
    Os.mkdir_parents dest ;;;
    process src dest "all_attack_benign_samples.tar.xz".

(** The exit status of the interpreter: the argument of [sys.exit], or 1
    when an exception reaches the top. *)
Definition exit_status (r : Result Z) : Z :=
  match r with
  | Ok n => n
  | Raise _ => 1%Z
  end.

(** ** The script run without arguments (lines 238-248)

    The two configured strings do not start with [~], so
    [Path.expanduser] returns the path itself; the value of [process] is
    dropped and the script ends, which is exit status 0. *)

Definition configured_src_dir : string := "C:\Users\kheir\Downloads".
Definition configured_dest_dir : string := "C:\Users\kheir\OneDrive\Desktop\Dataset".

(** [Path(s).expanduser().resolve()] for such a string. *)
Definition resolved_plain (s : string) : M Path :=
  w <- get_world ;;
  ret (mkPath true (PathOps.resolve (cwd w) (PathOps.parse s))).

Definition run_without_arguments : M Z :=
  src <- resolved_plain configured_src_dir ;;
  dest <- (if String.eqb configured_dest_dir "" then ret src
           else resolved_plain configured_dest_dir) ;;
  process src dest "all_attack_benign_samples.tar.xz" ;;;
  ret 0%Z.

End Script.

(* ===================================================================== *)
(** * Vocabulary of the statements *)
(* ===================================================================== *)

(** A lower-case hexadecimal digit. *)
Definition lower_hex (c : char) : bool :=
  ((48 <=? c) && (c <=? 57) || (97 <=? c) && (c <=? 102))%N.

(** The first maximal run of non-space characters of a text that starts
    with one. *)
Fixpoint token_run (t : text) : text :=
  match t with
  | [] => []
  | c :: t' => if Str.isspace c then [] else c :: token_run t'
  end.

(** The first whitespace-delimited token of a text, if it has one. *)
Definition first_token (t : text) : option text :=
  match Str.lstrip t with
  | [] => None
  | t' => Some (token_run t')
  end.

(** The first line of a text: what precedes the first line boundary. *)
Fixpoint line_run (t : text) : text :=
  match t with
  | [] => []
  | c :: t' => if Str.islinebreak c then [] else c :: line_run t'
  end.

(** A string of exactly 64 hexadecimal digits. *)
Definition is_hex64 (tok : text) : bool :=
  (length tok =? 64)%nat && forallb Str.ishex tok.

(** What the checksum reader makes of a token: the hexadecimal digits in
    it, when there are exactly 64 of them. *)
Definition clean_token (tok : text) : option text :=
  let t := List.filter Str.ishex tok in
  if (length t =? 64)%nat then Some t else None.

Definition digest_of_text (raw : text) : option text :=
  match first_token raw with
  | Some tok => clean_token tok
  | None => None
  end.

(** A path component holds no separator. *)
Fixpoint no_sep (c : string) : bool :=
  match c with
  | EmptyString => true
  | String a c' => negb (Ascii.eqb a sep) && no_sep c'
  end.

Definition clean_parts (k : list string) : Prop := Forall (fun c => no_sep c = true) k.

(** [t] is the directory [d] or lies below it, component by component;
    a target is outside [d] when this fails. *)
Definition inside (d t : list string) : Prop := exists rest, t = d ++ rest.



(** The regular files of [w'] are those of [w], with the same content. *)
Definition same_files (w w' : World) : Prop :=
  forall k c, fs w' !! k = Some (File c) <-> fs w !! k = Some (File c).

(** Every directory of [w] is a directory of [w'], and the working
    directory is the same. *)
Definition keeps_dirs (w w' : World) : Prop :=
  cwd w' = cwd w /\ forall k, fs w !! k = Some Dir -> fs w' !! k = Some Dir.

(** A statement whose runs are all related by [R]. *)
Definition preserves {A} (R : World -> World -> Prop) (m : M A) : Prop :=
  forall w r w', m w = (r, w') -> R w w'.

(** What creating directories may do to the world: new directories only. *)
Definition only_new_dirs (w w' : World) : Prop :=
  cwd w' = cwd w /\ out w' = out w /\ same_files w w'
  /\ forall k, fs w !! k = Some Dir -> fs w' !! k = Some Dir.

(** The world after one more line on the console. *)
Definition say (w : World) (m : Msg) : World :=
  mkWorld (fs w) (cwd w) (out w ++ [m]).

(** A chunk size that [read] serves: positive, small enough for a [bytes]
    object, and granted by the allocator. *)
Definition served `{Platform} (n : Z) : Prop :=
  (0 < n <= PY_SSIZE_T_MAX - 33)%Z /\ malloc n = true.

(** The line printed after a successful extraction of a checked archive. *)
Definition extracted_msg (kind arc : string) (dest : Path) : Msg :=
  if String.eqb kind "tarxz" then MsgExtractedTarXz arc dest
  else MsgDecompressedRaw arc dest.

(** Components as path parsing leaves them: no separator inside, not
    empty. *)
Definition proper_parts (k : list string) : Prop :=
  Forall (fun c => no_sep c = true /\ c <> "") k.

(* ===================================================================== *)
(** * A small platform to run the script on *)
(* ===================================================================== *)

(** A stand-in for the libraries, used to evaluate the script on concrete
    worlds.  An archive whose first byte is [T] is a container: the rest is
    the list of member names separated by [|].  An archive whose first byte
    is [X] is a raw stream whose data is the rest.  Anything else is not an
    [xz] stream.  The digest is the first 32 bytes of the zero-padded
    content, and the allocator grants buffers of up to 16 MiB. *)
Module Toy.

Fixpoint split_bar (cur : string) (bs : bytes) : list string :=
  match bs with
  | [] => [cur]
  | b :: bs' =>
      if Byte.eqb b x7c then cur :: split_bar "" bs'
      else split_bar (cur ++ String (ascii_of_byte b) "") bs'
  end.

Definition members (bs : bytes) : list Tarfile.TarInfo :=
  map (fun n => Tarfile.mkTarInfo n (bytes_of n)) (split_bar "" bs).

Definition open_ (c : bytes) : Result (list Tarfile.TarInfo) :=
  match c with
  | x54 :: rest => Ok (members rest)
  | _ => Raise ReadError
  end.

Definition put (c : list string) (p : Path) (f : gmap (list string) node)
    (m : Tarfile.TarInfo) : gmap (list string) node :=
  let k := PathOps.resolve c (p // Tarfile.name m) in
  match f !! k with
  | Some Dir => f
  | _ => <[k := File (Tarfile.payload m)]> f
  end.

Definition extractall_ (tf : list Tarfile.TarInfo) (p : Path) (c : list string)
    (f : gmap (list string) node) : Result unit * gmap (list string) node :=
  (Ok tt, fold_left (put c p) tf f).

Definition stream (c : bytes) : bytes * bool :=
  match c with
  | x58 :: rest => (rest, true)
  | _ => ([], false)
  end.

Definition digest (c : bytes) : bytes := take 32 (c ++ repeat x00 32).

Definition platform : Platform.
Proof.
  refine {| sha256 := digest;
            decode_ignore := map Byte.to_N;
            expanduser := fun s => s;
            TarFile := list Tarfile.TarInfo;
            tarfile_open := open_;
            getmembers := fun tf => Ok tf;
            extractall := extractall_;
            lzma_stream := stream;
            malloc := fun n => (n <=? 16 * 1024 * 1024)%Z |}.
  - intros tf p c f r f'. unfold extractall_. intros [= _ <-]. clear r.
    revert f. induction tf as [|m tf IH]; intros f k Hk; [exact Hk|].
    simpl. apply IH. unfold put.
    destruct (f !! PathOps.resolve c (p // Tarfile.name m)) as [[|]|] eqn:E;
      try exact Hk;
      (destruct (decide (PathOps.resolve c (p // Tarfile.name m) = k)) as [Heq|Hne];
       [rewrite Heq in E; rewrite E in Hk; discriminate Hk
       | by rewrite lookup_insert_ne]).
  - intros n Hn. apply Z.leb_le. lia.
Defined.

(** Sixty-four hexadecimal digits: the digest of 32 bytes [a]. *)
Definition hex64 (d : string) : string :=
  let d2 := (d ++ d)%string in let d4 := (d2 ++ d2)%string in
  let d8 := (d4 ++ d4)%string in let d16 := (d8 ++ d8)%string in
  (d16 ++ d16)%string.

Definition world (entries : list (list string * node)) : World :=
  mkWorld (list_to_map entries) [] [].

(** Worlds the examples run in. *)

Definition src_dir : Path := mkPath true ["src"].
Definition out_dir : Path := mkPath true ["out"].

(** A source directory with a container holding a member that climbs out
    of the destination, a container whose first member is the destination
    itself, and a raw stream. *)
Definition w_archives : World :=
  world [ (["src"], Dir);
          (["src"; "evil.tar.xz"], File (bytes_of "Ta.txt|../x"));
          (["src"; "dot.tar.xz"], File (bytes_of "T.|./a.txt"));
          (["src"; "payload.tar.xz"], File (bytes_of "Xraw bytes")) ].

(** The destination path is taken by a regular file. *)
Definition w_dest_is_file : World :=
  world [ (["src"], Dir);
          (["src"; "dot.tar.xz"], File (bytes_of "Ta.txt"));
          (["out"], File (bytes_of "not a directory")) ].

Definition top_name : string := "all_attack_benign_samples.tar.xz".

(** A source directory with the top-level archive and a [checksums] folder
    whose companion file holds a digest that is not the archive's. *)
Definition w_top_mismatch : World :=
  world [ (["src"], Dir);
          (["src"; top_name], File (bytes_of "Ta.txt"));
          (["src"; "checksums"], Dir);
          (["src"; "checksums"; (top_name ++ ".sha256")%string],
           File (bytes_of (hex64 "00"))) ].

(** The companion file of an archive with content [c]: its digest in
    hexadecimal. *)
Definition sha256_companion (c : bytes) : bytes :=
  map (fun n => default x00 (Byte.of_N n)) (Hashlib.hex_of_bytes (digest c)).

Definition data_dir : Path := mkPath true ["d"].
Definition attack_dir : Path := mkPath true ["d"; "attack_data"].
Definition attack_out : Path := mkPath true ["d"; "extracted_attack_data"].

(** A dataset directory after a good top-level extraction, where
    [attack_data] holds a directory named [a.tar.xz] next to the archive
    [b.tar.xz], and [checksums] holds a well-formed companion for each. *)
Definition w_nested : World :=
  world [ (["d"], Dir);
          (["d"; top_name], File (bytes_of "Tnote.txt"));
          (["d"; "attack_data"], Dir);
          (["d"; "attack_data"; "a.tar.xz"], Dir);
          (["d"; "attack_data"; "b.tar.xz"], File (bytes_of "Tb.txt"));
          (["d"; "attack_data"; "checksums"], Dir);
          (["d"; "attack_data"; "checksums"; "a.tar.xz.sha256"],
           File (bytes_of (hex64 "00")));
          (["d"; "attack_data"; "checksums"; "b.tar.xz.sha256"],
           File (sha256_companion (bytes_of "Tb.txt"))) ].

(** The same directory without the [checksums] folder. *)
Definition w_nested_unchecked : World :=
  world [ (["d"], Dir);
          (["d"; top_name], File (bytes_of "Tnote.txt"));
          (["d"; "attack_data"], Dir);
          (["d"; "attack_data"; "a.tar.xz"], Dir);
          (["d"; "attack_data"; "b.tar.xz"], File (bytes_of "Tb.txt")) ].




(** A file that is neither a container nor an [xz] stream. *)
Definition w_garbage : World :=
  world [ (["src"], Dir);
          (["src"; "junk.tar.xz"], File (bytes_of "not an archive")) ].

End Toy.

(* ===================================================================== *)
(** * Properties *)
(* ===================================================================== *)

(** ** Reading in chunks *)

Lemma read_chunk_served `{Platform} n rest :
  served n ->
  read_chunk n rest = Ok (take (Z.to_nat n) rest, drop (Z.to_nat n) rest).
Proof.
  unfold served, read_chunk, PY_SSIZE_T_MAX, PY_SSIZE_T_MIN. intros [Hn ->].
  destruct (n <? -9223372036854775808)%Z eqn:E1; [lia|].
  destruct (9223372036854775807 - 33 <? n)%Z eqn:E2; [lia|].
  destruct (n <? -1)%Z eqn:E3; [lia|].
  destruct (n =? -1)%Z eqn:E4; [lia|].
  destruct (n =? 0)%Z eqn:E5; [lia|]. reflexivity.
Qed.

Lemma read_chunk_too_large `{Platform} n rest :
  (PY_SSIZE_T_MAX - 33 < n)%Z -> read_chunk n rest = Raise OverflowError.
Proof.
  unfold read_chunk. intros Hn%Z.ltb_lt. by rewrite Hn, orb_true_r.
Qed.

Lemma read_chunk_refused `{Platform} n rest :
  (0 < n <= PY_SSIZE_T_MAX - 33)%Z -> malloc n = false ->
  read_chunk n rest = Raise MemoryError.
Proof.
  unfold read_chunk, PY_SSIZE_T_MAX, PY_SSIZE_T_MIN. intros Hn ->.
  destruct (n <? -9223372036854775808)%Z eqn:E1; [lia|].
  destruct (9223372036854775807 - 33 <? n)%Z eqn:E2; [lia|].
  destruct (n <? -1)%Z eqn:E3; [lia|].
  destruct (n =? -1)%Z eqn:E4; [lia|].
  destruct (n =? 0)%Z eqn:E5; [lia|]. reflexivity.
Qed.

(** The script's own size, 1 MiB, is served on every platform. *)
Lemma served_chunk `{Platform} : served (1024 * 1024).
Proof.
  split; [unfold PY_SSIZE_T_MAX; lia|]. apply malloc_chunk. lia.
Qed.

Lemma take_drop_empty (n : Z) (rest : bytes) :
  (0 < n)%Z -> take (Z.to_nat n) rest = [] -> drop (Z.to_nat n) rest = [].
Proof.
  intros Hn. destruct rest; [by rewrite drop_nil|].
  destruct (Z.to_nat n) eqn:E; [lia | discriminate].
Qed.

(** ** sha256_file *)

(** The loop feeds the hash object the whole stream, whatever the size of
    the reads, as long as the reads are served. *)
Lemma sha256_loop_feeds_all `{Platform} bufsize rest h :
  served bufsize -> sha256_loop bufsize rest h = Ok (h ++ rest).
Proof.
  apply (sha256_loop_elim
           (fun bufsize rest h res => served bufsize -> res = Ok (h ++ rest))).
  - intros n r r' Heq h0 _ Hn. rewrite (read_chunk_served n r Hn) in Heq.
    injection Heq as Ht Hd. destruct Hn as [Hn _].
    pose proof (take_drop_empty n r ltac:(lia) Ht) as Hd'.
    rewrite <- (take_drop (Z.to_nat n) r), Ht, Hd'. by rewrite app_nil_r.
  - intros n r b bs r' Heq h0 IH _ Hn. rewrite (IH Hn). unfold Hashlib.update.
    rewrite (read_chunk_served n r Hn) in Heq. injection Heq as Ht Hd.
    rewrite <- (take_drop (Z.to_nat n) r), Ht, Hd. by rewrite <- app_assoc.
  - intros n r e Heq h0 _ Hn. rewrite (read_chunk_served n r Hn) in Heq. discriminate Heq.
Qed.

(** A read that raises ends the loop at its first turn. *)
Lemma sha256_loop_raises `{Platform} bufsize rest h e :
  read_chunk bufsize rest = Raise e -> sha256_loop bufsize rest h = Raise e.
Proof.
  apply (sha256_loop_elim
           (fun bufsize rest h res => read_chunk bufsize rest = Raise e -> res = Raise e)).
  - intros n r r' Heq h0 _ Hr. rewrite Hr in Heq. discriminate Heq.
  - intros n r b bs r' Heq h0 _ _ Hr. rewrite Hr in Heq. discriminate Heq.
  - intros n r e0 Heq h0 _ Hr. rewrite Hr in Heq. by injection Heq as <-.
Qed.

Lemma hexdigit_lower n : (n < 16)%N -> lower_hex (Hashlib.hexdigit n) = true.
Proof.
  intros Hn. unfold Hashlib.hexdigit, lower_hex.
  destruct (n <? 10)%N eqn:E.
  - apply N.ltb_lt in E. apply orb_true_iff. left.
    apply andb_true_iff. split; apply N.leb_le; lia.
  - apply N.ltb_ge in E. apply orb_true_iff. right.
    apply andb_true_iff. split; apply N.leb_le; lia.
Qed.

Lemma hex_of_bytes_lower bs : Forall (fun c => lower_hex c = true) (Hashlib.hex_of_bytes bs).
Proof.
  induction bs as [|b bs IH]; [constructor|].
  unfold Hashlib.hex_of_bytes. simpl.
  pose proof (Byte.to_N_bounded b) as Hb.
  constructor; [|constructor; [|exact IH]]; apply hexdigit_lower.
  - apply N.Div0.div_lt_upper_bound. lia.
  - apply N.mod_lt. lia.
Qed.

Lemma sha256_file_buf_value `{Platform} path content bufsize w :
  Os.open_rb path w = (Ok content, w) ->
  served bufsize ->
  sha256_file_buf path bufsize w = (Ok (Hashlib.hex_of_bytes (sha256 content)), w).
Proof.
  intros Hopen Hn. unfold sha256_file_buf, bind. rewrite Hopen.
  unfold lift, ret, Hashlib.hexdigest, Hashlib.new.
  by rewrite (sha256_loop_feeds_all bufsize content [] Hn).
Qed.

Lemma sha256_file_buf_raises `{Platform} path content bufsize w e :
  Os.open_rb path w = (Ok content, w) ->
  read_chunk bufsize content = Raise e ->
  sha256_file_buf path bufsize w = (Raise e, w).
Proof.
  intros Hopen Hr. unfold sha256_file_buf, bind. rewrite Hopen.
  unfold lift. by rewrite (sha256_loop_raises bufsize content Hashlib.new e Hr).
Qed.

Lemma sha256_file_value `{Platform} path content w :
  Os.open_rb path w = (Ok content, w) ->
  sha256_file path w = (Ok (Hashlib.hex_of_bytes (sha256 content)), w).
Proof.
  intros Hopen. apply sha256_file_buf_value; [done | apply served_chunk].
Qed.

(** C7 (amended): for every content of the file at [path], [sha256_file]
    returns the hexadecimal form of the SHA-256 of the whole content, in
    lower case, and leaves the world alone; read with another positive
    chunk size it returns the same digest whenever [read] serves that size,
    that is, the size is at most [PY_SSIZE_T_MAX - 33] and the allocator
    grants the buffer.  The other positive sizes give no digest: [read]
    raises [MemoryError] when the buffer is refused and [OverflowError]
    from [PY_SSIZE_T_MAX - 32] on. *)
Theorem sha256_file_chunk_size_invariant `{Platform}
    (path : Path) (content : bytes) (bufsize : Z) (w : World) :
  Os.open_rb path w = (Ok content, w) ->
  (0 < bufsize)%Z ->
  sha256_file path w = (Ok (Hashlib.hex_of_bytes (sha256 content)), w)
  /\ Forall (fun c => lower_hex c = true) (Hashlib.hex_of_bytes (sha256 content))
  /\ (served bufsize -> sha256_file_buf path bufsize w = sha256_file path w)
  /\ ((bufsize <= PY_SSIZE_T_MAX - 33)%Z -> malloc bufsize = false ->
      sha256_file_buf path bufsize w = (Raise MemoryError, w))
  /\ ((PY_SSIZE_T_MAX - 33 < bufsize)%Z ->
      sha256_file_buf path bufsize w = (Raise OverflowError, w)).
Proof.
  intros Hopen Hpos. split; [by apply sha256_file_value|].
  split; [apply hex_of_bytes_lower|]. split; [|split].
  - intros Hs. rewrite (sha256_file_value path content w Hopen).
    by apply sha256_file_buf_value.
  - intros Hle Hm. apply (sha256_file_buf_raises path content); [done|].
    apply read_chunk_refused; [lia | done].
  - intros Hgt. apply (sha256_file_buf_raises path content); [done|].
    by apply read_chunk_too_large.
Qed.

Lemma sha256_file_chunk_size_invariant_witness :
  let w := Toy.world [(["a.bin"], File (bytes_of "some bytes"))] in
  let p := mkPath true ["a.bin"] in
  @sha256_file Toy.platform p w
  = (Ok (Hashlib.hex_of_bytes (Toy.digest (bytes_of "some bytes"))), w)
  /\ @sha256_file_buf Toy.platform p 3 w = @sha256_file Toy.platform p w.
Proof.
  intros w p.
  destruct (@sha256_file_chunk_size_invariant Toy.platform p (bytes_of "some bytes") 3 w)
    as (Hfile & _ & Hbuf & _).
  - reflexivity.
  - lia.
  - split; [exact Hfile|]. apply Hbuf. split; [unfold PY_SSIZE_T_MAX; lia | reflexivity].
Defined.

(** C7, as stated, fails: the chunk size [PY_SSIZE_T_MAX] is positive, and
    with it the first [read] raises [OverflowError] on a file the default
    size hashes. *)
Lemma sha256_file_chunk_size_too_large :
  let w := Toy.world [(["a.bin"], File (bytes_of "some bytes"))] in
  let p := mkPath true ["a.bin"] in
  (0 < PY_SSIZE_T_MAX)%Z
  /\ @sha256_file Toy.platform p w
     = (Ok (Hashlib.hex_of_bytes (Toy.digest (bytes_of "some bytes"))), w)
  /\ @sha256_file_buf Toy.platform p PY_SSIZE_T_MAX w = (Raise OverflowError, w).
Proof. vm_compute. done. Qed.

(** ** read_expected_sha256 *)

Lemma linebreak_is_space c : Str.islinebreak c = true -> Str.isspace c = true.
Proof.
  unfold Str.islinebreak, Str.isspace.
  rewrite !orb_true_iff, !andb_true_iff, !N.leb_le, !N.eqb_eq. lia.
Qed.

Lemma lstrip_starts t c r : Str.lstrip t = c :: r -> Str.isspace c = false.
Proof.
  induction t as [|a t IH]; simpl; [done|].
  destruct (Str.isspace a) eqn:E; [exact IH|]. by intros [= <- _].
Qed.

Lemma lstrip_snoc x a :
  Str.lstrip (x ++ [a]) =
  if forallb Str.isspace x then Str.lstrip [a] else Str.lstrip x ++ [a].
Proof.
  induction x as [|b x IH]; [done|].
  simpl. destruct (Str.isspace b); simpl; [exact IH | done].
Qed.

Lemma forallb_rev {A} (f : A -> bool) l : forallb f (rev l) = forallb f l.
Proof.
  induction l as [|a l IH]; [done|].
  simpl. rewrite forallb_app, IH. simpl. rewrite andb_true_r. apply andb_comm.
Qed.

(** [rstrip] by recursion from the front. *)
Lemma rstrip_cons a l :
  Str.rstrip (a :: l) =
  if forallb Str.isspace l then (if Str.isspace a then [] else [a])
  else a :: Str.rstrip l.
Proof.
  unfold Str.rstrip. simpl rev. rewrite lstrip_snoc, forallb_rev.
  destruct (forallb Str.isspace l).
  - simpl. by destruct (Str.isspace a).
  - by rewrite rev_app_distr.
Qed.

Lemma token_run_spaces l : forallb Str.isspace l = true -> token_run l = [].
Proof. destruct l as [|a l]; [done|]. simpl. by destruct (Str.isspace a). Qed.

Lemma token_run_rstrip l : token_run (Str.rstrip l) = token_run l.
Proof.
  induction l as [|a l IH]; [done|].
  rewrite rstrip_cons. destruct (forallb Str.isspace l) eqn:E.
  - simpl. destruct (Str.isspace a) eqn:Ea; simpl; [done|].
    by rewrite Ea, (token_run_spaces l E).
  - simpl. by rewrite IH.
Qed.

Lemma token_run_line_run l : token_run (line_run l) = token_run l.
Proof.
  induction l as [|a l IH]; [done|].
  simpl. destruct (Str.islinebreak a) eqn:E.
  - by rewrite (linebreak_is_space a E).
  - simpl. by rewrite IH.
Qed.

Lemma token_run_no_space l : forallb (fun c => negb (Str.isspace c)) (token_run l) = true.
Proof.
  induction l as [|a l IH]; [done|].
  simpl. destruct (Str.isspace a) eqn:E; [done|]. simpl. by rewrite E.
Qed.

Lemma strip_no_space l :
  forallb (fun c => negb (Str.isspace c)) l = true -> Str.strip l = l.
Proof.
  intros Hl. unfold Str.strip.
  assert (Hls : Str.lstrip l = l).
  { destruct l as [|a l]; [done|]. simpl in *. by destruct (Str.isspace a). }
  rewrite Hls. clear Hls.
  induction l as [|a l IH]; [done|].
  simpl in Hl. apply andb_true_iff in Hl as [Ha Hl].
  rewrite rstrip_cons, (IH Hl).
  destruct (Str.isspace a) eqn:Ea; [done|].
  destruct l as [|b l]; [done|].
  simpl in Hl. apply andb_true_iff in Hl as [Hb _].
  simpl. destruct (Str.isspace b); [done|]. done.
Qed.

Lemma splitlines_first cur t :
  cur <> [] \/ t <> [] ->
  Str.item0 (Str.splitlines_aux cur t) = Ok (rev cur ++ line_run t).
Proof.
  revert cur. induction t as [|c t IH]; intros cur Hne.
  - simpl. destruct cur; [by destruct Hne|]. by rewrite app_nil_r.
  - simpl. destruct (Str.islinebreak c) eqn:E.
    + rewrite app_nil_r. destruct t as [|d t]; [done|].
      by destruct ((c =? 13) && (d =? 10))%N.
    + rewrite IH by (by left). simpl. by rewrite <- app_assoc.
Qed.

Lemma split_first cur t :
  Str.item0 (Str.split_aux cur t) =
  match cur, Str.lstrip t with
  | [], [] => Raise IndexError
  | [], t' => Ok (token_run t')
  | _, _ => Ok (rev cur ++ token_run t)
  end.
Proof.
  revert cur. induction t as [|c t IH]; intros cur.
  - simpl. destruct cur; [done|]. by rewrite app_nil_r.
  - simpl. destruct (Str.isspace c) eqn:E.
    + destruct cur; [by rewrite IH | by rewrite app_nil_r].
    + rewrite IH. simpl. rewrite E.
      destruct cur; [done|]. simpl. by rewrite <- !app_assoc.
Qed.

Lemma lstrip_nonspace_head c r :
  Str.isspace c = false -> Str.lstrip (c :: r) = c :: r.
Proof. intros Hc. simpl. by rewrite Hc. Qed.

Lemma rstrip_keeps_head c r :
  Str.isspace c = false -> exists r', Str.rstrip (c :: r) = c :: r'.
Proof.
  intros Hc. rewrite rstrip_cons, Hc.
  destruct (forallb Str.isspace r); eauto.
Qed.

(** The body of the reader computes the cleaned first token. *)
Lemma parse_expected_first_token raw :
  parse_expected raw = Ok (digest_of_text raw).
Proof.
  unfold parse_expected, digest_of_text, first_token.
  destruct (Str.lstrip raw) as [|c r] eqn:El.
  { unfold Str.strip. by rewrite El. }
  pose proof (lstrip_starts _ _ _ El) as Hc.
  assert (Hlb : Str.islinebreak c = false).
  { destruct (Str.islinebreak c) eqn:E; [|done].
    apply linebreak_is_space in E. congruence. }
  unfold Str.strip at 1 2. rewrite El.
  destruct (rstrip_keeps_head c r Hc) as [r' Er]. rewrite Er.
  unfold Str.splitlines. rewrite splitlines_first by (by right).
  cbn beta iota delta [rev app line_run]. rewrite Hlb.
  unfold Str.strip at 1. rewrite (lstrip_nonspace_head c _ Hc).
  destruct (rstrip_keeps_head c (line_run r') Hc) as [r'' Er'']. rewrite Er''.
  unfold Str.split. rewrite split_first, (lstrip_nonspace_head c _ Hc).
  cbn beta iota.
  assert (Htok : token_run (c :: r'') = token_run (c :: r)).
  { rewrite <- Er'', token_run_rstrip.
    replace (c :: line_run r') with (line_run (c :: r'))
      by (simpl; by rewrite Hlb).
    by rewrite token_run_line_run, <- Er, token_run_rstrip. }
  rewrite Htok, (strip_no_space _ (token_run_no_space (c :: r))).
  reflexivity.
Qed.

Lemma open_rb_world p w : snd (Os.open_rb p w) = w.
Proof.
  unfold Os.open_rb. destruct (Os.locate w p); [|done].
  by destruct (Os.node_at (fs w) a) as [[|]|].
Qed.

Lemma first_token_of_first_line raw tok :
  first_token (line_run raw) = Some tok -> first_token raw = Some tok.
Proof.
  unfold first_token. induction raw as [|a l IH]; [done|].
  simpl line_run. destruct (Str.islinebreak a) eqn:Elb; [done|].
  simpl Str.lstrip. destruct (Str.isspace a) eqn:Ea; [exact IH|].
  intros [= <-]. f_equal.
  rewrite <- (token_run_line_run (a :: l)). simpl line_run. by rewrite Elb.
Qed.

Lemma clean_token_hex64 tok : is_hex64 tok = true -> clean_token tok = Some tok.
Proof.
  unfold is_hex64, clean_token. intros [Hlen Hhex]%andb_true_iff.
  assert (Hf : List.filter Str.ishex tok = tok).
  { clear Hlen. induction tok as [|c t IH]; [done|].
    simpl in *. apply andb_true_iff in Hhex as [-> Ht]. by rewrite (IH Ht). }
  by rewrite Hf, Hlen.
Qed.

(** A digest that comes out of the reader is made of hexadecimal digits,
    as is every [hexdigest]: the comparison of the script lowers nothing
    but ASCII. *)
Lemma clean_token_hex tok t :
  clean_token tok = Some t -> Forall (fun c => Str.ishex c = true) t.
Proof.
  unfold clean_token.
  destruct (length (List.filter Str.ishex tok) =? 64)%nat; [|done].
  intros [= <-]. apply List.Forall_forall. intros c Hc.
  by apply filter_In in Hc as [_ Hc].
Qed.

Lemma read_expected_sha256_value `{Platform} path w :
  read_expected_sha256 path w =
    (Ok (match fst (Os.open_rb path w) with
         | Ok c => digest_of_text (decode_ignore c)
         | Raise _ => None
         end), w).
Proof.
  unfold read_expected_sha256, try_except, bind, lift, ret.
  pose proof (open_rb_world path w) as Hw.
  destruct (Os.open_rb path w) as [[c|e] w']; simpl in *; subst w'; [|done].
  by rewrite parse_expected_first_token.
Qed.

(** C5 (amended): [read_expected_sha256] never raises and leaves the world
    alone.  When the file can be read, the result is the first
    whitespace-delimited token of its text with every character that is not
    a hexadecimal digit removed, provided exactly 64 digits remain, and
    [None] otherwise (blank text included); when the file cannot be read
    the result is [None].  In particular a first line whose first token is
    a string of 64 hexadecimal digits gives back exactly that string. *)
Theorem read_expected_sha256_spec `{Platform} (path : Path) (w : World) :
  read_expected_sha256 path w =
    (Ok (match fst (Os.open_rb path w) with
         | Ok c => digest_of_text (decode_ignore c)
         | Raise _ => None
         end), w)
  /\ (forall raw tok,
        first_token (line_run raw) = Some tok -> is_hex64 tok = true ->
        digest_of_text raw = Some tok).
Proof.
  split; [apply read_expected_sha256_value|].
  intros raw tok Htok Hhex. unfold digest_of_text.
  rewrite (first_token_of_first_line raw tok Htok).
  by apply clean_token_hex64.
Qed.

(** C5, as stated, fails: a first token that is not a string of 64
    hexadecimal digits is still accepted when 64 hexadecimal digits are
    left once the other characters are dropped. *)
Lemma read_expected_sha256_accepts_unclean_token :
  let tok := ("g" ++ Toy.hex64 "0a")%string in
  let w := Toy.world [(["x.sha256"], File (bytes_of tok))] in
  first_token (line_run (map Byte.to_N (bytes_of tok))) = Some (text_of tok)
  /\ is_hex64 (text_of tok) = false
  /\ @read_expected_sha256 Toy.platform (mkPath true ["x.sha256"]) w
     = (Ok (Some (text_of (Toy.hex64 "0a"))), w).
Proof. vm_compute. done. Qed.

(** ** Strings and paths *)

Lemma no_sep_app a b : no_sep (a ++ b) = no_sep a && no_sep b.
Proof.
  induction a as [|x a IH]; [done|].
  simpl. rewrite IH. by rewrite andb_assoc.
Qed.

Lemma split_sep_clean cur s :
  no_sep cur = true -> clean_parts (PathOps.split_sep cur s).
Proof.
  revert cur. induction s as [|a s IH]; intros cur Hcur.
  - by constructor.
  - simpl. destruct (Ascii.eqb a sep) eqn:E.
    + constructor; [done | by apply IH].
    + apply IH. rewrite no_sep_app, Hcur. simpl. by rewrite E.
Qed.






Lemma prefix_cons a s1 b s2 :
  String.prefix (String a s1) (String b s2) = Ascii.eqb a b && String.prefix s1 s2.
Proof.
  simpl. destruct (ascii_dec a b) as [->|Hne].
  - by rewrite Ascii.eqb_refl.
  - apply Ascii.eqb_neq in Hne. by rewrite Hne.
Qed.



Lemma concat_parts_starts k :
  k = [] \/ PathOps.starts_with_sep (PathOps.concat_parts k) = true.
Proof. destruct k; [by left | by right]. Qed.

Lemma append_cons x (a b : string) : (String x a ++ b = String x (a ++ b))%string.
Proof. reflexivity. Qed.

Lemma append_assoc (a b c : string) : ((a ++ b) ++ c = a ++ (b ++ c))%string.
Proof. induction a as [|x a IH]; [done|]. by rewrite !append_cons, IH. Qed.


Lemma prefix_length s1 s2 :
  String.prefix s1 s2 = true -> (String.length s1 <= String.length s2)%nat.
Proof.
  revert s2. induction s1 as [|a s1 IH]; intros s2 Hp; [simpl; lia|].
  destruct s2 as [|b s2]; [done|].
  rewrite prefix_cons in Hp. apply andb_true_iff in Hp as [_ Hp].
  apply IH in Hp. simpl. lia.
Qed.

Lemma length_append (a b : string) :
  String.length (a ++ b) = (String.length a + String.length b)%nat.
Proof. induction a as [|x a IH]; [done|]. rewrite append_cons. simpl. by rewrite IH. Qed.


(** No string starts with itself followed by one more character. *)
Lemma startswith_self_sep s : PathOps.startswith s (s ++ String sep "") = false.
Proof.
  unfold PathOps.startswith.
  destruct (String.prefix (s ++ String sep "") s) eqn:E; [|done].
  apply prefix_length in E. rewrite length_append in E. simpl in E. lia.
Qed.



(** ** Reasoning about statements *)

Lemma bind_inv {A B} (m : M A) (k : A -> M B) w r w' :
  bind m k w = (r, w') ->
  (exists a w1, m w = (Ok a, w1) /\ k a w1 = (r, w'))
  \/ (exists e, m w = (Raise e, w') /\ r = Raise e).
Proof.
  unfold bind. destruct (m w) as [[a|e] w1]; intros Hk.
  - left. eauto.
  - right. injection Hk as <- <-. eauto.
Qed.

Lemma bind_ok {A B} (m : M A) (k : A -> M B) w a w1 :
  m w = (Ok a, w1) -> bind m k w = k a w1.
Proof. intros Hm. unfold bind. by rewrite Hm. Qed.

Lemma bind_raise {A B} (m : M A) (k : A -> M B) w e w1 :
  m w = (Raise e, w1) -> bind m k w = (Raise e, w1).
Proof. intros Hm. unfold bind. by rewrite Hm. Qed.

Section Preservation.
Context (R : World -> World -> Prop).
Hypothesis R_refl : forall w, R w w.
Hypothesis R_trans : forall w1 w2 w3, R w1 w2 -> R w2 w3 -> R w1 w3.

Lemma preserves_ret {A} (a : A) : preserves R (ret a).
Proof. intros w r w' [= _ <-]. apply R_refl. Qed.

Lemma preserves_raise {A} e : preserves R (@raise A e).
Proof. intros w r w' [= _ <-]. apply R_refl. Qed.

Lemma preserves_lift {A} (x : Result A) : preserves R (lift x).
Proof. intros w r w' [= _ <-]. apply R_refl. Qed.

Lemma preserves_bind {A B} (m : M A) (k : A -> M B) :
  preserves R m -> (forall a, preserves R (k a)) -> preserves R (bind m k).
Proof.
  intros Hm Hk w r w' Hb.
  apply bind_inv in Hb as [(a & w1 & Hma & Hka) | (e & Hme & _)].
  - eapply R_trans; [eapply Hm | eapply Hk]; eassumption.
  - eapply Hm; eassumption.
Qed.

Lemma preserves_try_except {A} (m : M A) (h : exn -> M A) :
  preserves R m -> (forall e, preserves R (h e)) -> preserves R (try_except m h).
Proof.
  intros Hm Hh w r w'. unfold try_except.
  destruct (m w) as [[a|e] w1] eqn:E.
  - intros [= <- <-]. eapply Hm; eassumption.
  - intros Hhe. eapply R_trans; [eapply Hm | eapply Hh]; eassumption.
Qed.

Lemma preserves_try_except_ReadError {A} (m h : M A) :
  preserves R m -> preserves R h -> preserves R (try_except_ReadError m h).
Proof.
  intros Hm Hh w r w'. unfold try_except_ReadError.
  destruct (m w) as [[a|e] w1] eqn:E.
  - intros [= <- <-]. eapply Hm; eassumption.
  - destruct e; try (intros [= <- <-]; eapply Hm; eassumption).
    intros Hhe. eapply R_trans; [eapply Hm | eapply Hh]; eassumption.
Qed.

Lemma preserves_if {A} (b : bool) (m1 m2 : M A) :
  preserves R m1 -> preserves R m2 -> preserves R (if b then m1 else m2).
Proof. by destruct b. Qed.

End Preservation.

(** ** The file system *)


Lemma is_dir_world p w : snd (Os.is_dir p w) = w.
Proof. unfold Os.is_dir. by destruct (Os.locate w p). Qed.

Lemma is_dir_inv p w b w' : Os.is_dir p w = (Ok b, w') -> w' = w.
Proof. intros Hd. pose proof (is_dir_world p w) as Hw. by rewrite Hd in Hw. Qed.

Lemma node_at_none f k : Os.node_at f k = None -> k <> [] /\ f !! k = None.
Proof. by destruct k. Qed.

Lemma node_at_dir_mono f f' k :
  (forall k, f !! k = Some Dir -> f' !! k = Some Dir) ->
  Os.node_at f k = Some Dir -> Os.node_at f' k = Some Dir.
Proof. intros Hk. destruct k; [done|]. apply Hk. Qed.

(** A successful lookup stays successful when directories are kept. *)
Lemma walk_mono f f' cur ps k :
  (forall k, f !! k = Some Dir -> f' !! k = Some Dir) ->
  Os.walk f cur ps = Ok k -> Os.walk f' cur ps = Ok k.
Proof.
  intros Hk. revert cur. induction ps as [|c ps IH]; intros cur; [done|].
  simpl. destruct (Os.node_at f cur) as [[|]|] eqn:E; try done.
  rewrite (node_at_dir_mono f f' cur Hk E). apply IH.
Qed.

Lemma only_new_dirs_refl w : only_new_dirs w w.
Proof. by repeat split. Qed.

Lemma only_new_dirs_trans w1 w2 w3 :
  only_new_dirs w1 w2 -> only_new_dirs w2 w3 -> only_new_dirs w1 w3.
Proof.
  intros (Hc1 & Ho1 & Hf1 & Hd1) (Hc2 & Ho2 & Hf2 & Hd2).
  repeat split; try congruence.
  - intros Hk. apply Hf1, Hf2, Hk.
  - intros Hk. apply Hf2, Hf1, Hk.
  - intros k Hk. apply Hd2, Hd1, Hk.
Qed.

Lemma insert_dir_only_new w k :
  fs w !! k = None -> only_new_dirs w (set_fs w (<[k := Dir]> (fs w))).
Proof.
  intros Hk. repeat split; simpl.
  - intros Hl. destruct (decide (k = k0)) as [->|Hne].
    + by rewrite lookup_insert_eq in Hl.
    + by rewrite lookup_insert_ne in Hl.
  - intros Hl. rewrite lookup_insert_ne; [done|]. congruence.
  - intros k0 Hl. rewrite lookup_insert_ne; [done|]. congruence.
Qed.

Lemma mkdir1_inv p w r w' :
  Os.mkdir1 p w = (r, w') ->
  (r = Ok tt /\ exists k, Os.locate w p = Ok k /\ k <> [] /\ fs w !! k = None
                          /\ w' = set_fs w (<[k := Dir]> (fs w)))
  \/ ((exists e, r = Raise e) /\ w' = w).
Proof.
  unfold Os.mkdir1. destruct (parts p) eqn:Ep.
  { intros [= <- <-]. right. eauto. }
  destruct (Os.locate w p) as [k|e] eqn:El.
  - destruct (Os.node_at (fs w) k) eqn:En.
    + intros [= <- <-]. right. eauto.
    + intros [= <- <-]. left. split; [done|]. exists k.
      apply node_at_none in En as [? ?]. done.
  - intros [= <- <-]. right. eauto.
Qed.

Lemma mkdir1_only_new p : preserves only_new_dirs (Os.mkdir1 p).
Proof.
  intros w r w' Hm. apply mkdir1_inv in Hm as [(_ & k & _ & _ & Hk & ->) | (_ & ->)].
  - by apply insert_dir_only_new.
  - apply only_new_dirs_refl.
Qed.

Lemma is_dir_only_new p : preserves only_new_dirs (Os.is_dir p).
Proof.
  intros w r w' Hd. pose proof (is_dir_world p w) as Hw. rewrite Hd in Hw.
  simpl in Hw. subst w'. apply only_new_dirs_refl.
Qed.

Lemma mkdir_handler_only_new p e :
  preserves only_new_dirs (d <- Os.is_dir p ;; if d then ret tt else raise e).
Proof.
  apply preserves_bind; [apply only_new_dirs_trans | apply is_dir_only_new |].
  intros d. apply preserves_if;
    [apply preserves_ret | apply preserves_raise]; apply only_new_dirs_refl.
Qed.

Lemma mkdir_rev_unfold anch rps w :
  Os.mkdir_rev anch rps w =
  let p := mkPath anch (rev rps) in
  match Os.mkdir1 p w with
  | (Ok tt, w') => (Ok tt, w')
  | (Raise FileNotFoundError, w') =>
      match rps with
      | [] => (Raise FileNotFoundError, w')
      | _ :: rps' =>
          (Os.mkdir_rev anch rps' ;;;
           try_except (Os.mkdir1 p)
             (fun e => d <- Os.is_dir p ;; if d then ret tt else raise e)) w'
      end
  | (Raise e, w') =>
      (d <- Os.is_dir p ;; if d then ret tt else raise e) w'
  end.
Proof. by destruct rps. Qed.

(** Creating the destination adds directories and nothing else. *)
Lemma mkdir_rev_only_new anch rps : preserves only_new_dirs (Os.mkdir_rev anch rps).
Proof.
  induction rps as [|c rps IH]; intros w r w'; rewrite mkdir_rev_unfold; cbv zeta;
    destruct (Os.mkdir1 _ w) as [[[]|e] w1] eqn:E1;
    pose proof (mkdir1_only_new _ _ _ _ E1) as H1.
  - by intros [= <- <-].
  - destruct e; try (intros [= <- <-]; exact H1);
      intros Hh; (eapply only_new_dirs_trans; [exact H1|]);
      eapply mkdir_handler_only_new; exact Hh.
  - by intros [= <- <-].
  - assert (Hrec : preserves only_new_dirs
              (Os.mkdir_rev anch rps ;;;
               try_except (Os.mkdir1 (mkPath anch (rev (c :: rps))))
                 (fun e => d <- Os.is_dir (mkPath anch (rev (c :: rps))) ;;
                           if d then ret tt else raise e))).
    { apply preserves_bind; [apply only_new_dirs_trans | exact IH |].
      intros _. apply preserves_try_except;
        [apply only_new_dirs_trans | apply mkdir1_only_new |].
      intros e0. apply mkdir_handler_only_new. }
    destruct e; intros Hh; (eapply only_new_dirs_trans; [exact H1|]);
      first [ eapply Hrec; exact Hh | eapply mkdir_handler_only_new; exact Hh ].
Qed.

Lemma mkdir_parents_only_new p : preserves only_new_dirs (Os.mkdir_parents p).
Proof. apply mkdir_rev_only_new. Qed.

Lemma mkdir1_ok_is_dir p w w' :
  Os.mkdir1 p w = (Ok tt, w') -> Os.is_dir p w' = (Ok true, w').
Proof.
  intros Hm. apply mkdir1_inv in Hm as [(_ & k & Hl & Hne & Hk & ->) | ((e & He) & _)];
    [|done].
  unfold Os.is_dir, Os.locate in *. simpl.
  rewrite (walk_mono (fs w) (<[k:=Dir]> (fs w)) _ _ k); [| |exact Hl].
  - destruct k; [done|]. simpl. by rewrite lookup_insert_eq.
  - intros k0 Hk0. rewrite lookup_insert_ne; [done|]. congruence.
Qed.

Lemma mkdir_handler_ok_is_dir p e w w' :
  (d <- Os.is_dir p ;; if d then ret tt else raise e) w = (Ok tt, w') ->
  Os.is_dir p w' = (Ok true, w').
Proof.
  intros Hh. apply bind_inv in Hh as [(d & w1 & Hd & Hk) | (e0 & _ & ?)]; [|done].
  pose proof (is_dir_inv _ _ _ _ Hd) as ->.
  destruct d; [|done]. injection Hk as <-. exact Hd.
Qed.

(** When the creation of a directory succeeds, the directory is there. *)
Lemma mkdir_rev_ok_is_dir anch rps w w' :
  Os.mkdir_rev anch rps w = (Ok tt, w') ->
  Os.is_dir (mkPath anch (rev rps)) w' = (Ok true, w').
Proof.
  rewrite mkdir_rev_unfold. cbv zeta.
  destruct (Os.mkdir1 _ w) as [[[]|e] w1] eqn:E1.
  - intros [= ?]; subst. eapply mkdir1_ok_is_dir. eassumption.
  - assert (Hrec : forall rps' w0,
              (Os.mkdir_rev anch rps' ;;;
               try_except (Os.mkdir1 (mkPath anch (rev rps)))
                 (fun e => d <- Os.is_dir (mkPath anch (rev rps)) ;;
                           if d then ret tt else raise e)) w0 = (Ok tt, w') ->
              Os.is_dir (mkPath anch (rev rps)) w' = (Ok true, w')).
    { intros rps' w0 Hb.
      apply bind_inv in Hb as [(a & w2 & _ & Ht) | (e0 & _ & ?)]; [|done].
      unfold try_except in Ht.
      destruct (Os.mkdir1 _ w2) as [[[]|e1] w3] eqn:E2.
      - injection Ht as ?; subst. eapply mkdir1_ok_is_dir. eassumption.
      - by apply mkdir_handler_ok_is_dir in Ht. }
    destruct e; try (intros Hh; by apply mkdir_handler_ok_is_dir in Hh).
    destruct rps as [|c rps']; [done|]. apply Hrec.
Qed.

Lemma mkdir_parents_ok_is_dir p w w' :
  Os.mkdir_parents p w = (Ok tt, w') -> Os.is_dir p w' = (Ok true, w').
Proof.
  intros Hm. apply mkdir_rev_ok_is_dir in Hm.
  rewrite rev_involutive in Hm. by destruct p.
Qed.

(** ** extract_tar_xz: the check of the members *)

(** The loop stops at the first member that fails the test and changes
    nothing. *)
Lemma check_members_spec `{Platform} dest_dir ms w :
  check_members dest_dir ms w =
  (match List.find (fun m => negb (member_ok (cwd w) dest_dir m)) ms with
   | Some m => Raise (Blocked (Tarfile.name m))
   | None => Ok tt
   end, w).
Proof.
  induction ms as [|m ms IH]; [done|].
  simpl. unfold bind, get_world.
  destruct (negb (member_ok (cwd w) dest_dir m)); [done | exact IH].
Qed.









(** ** extract_tar_xz: what happens to directories *)

Lemma keeps_dirs_refl w : keeps_dirs w w.
Proof. by split. Qed.

Lemma keeps_dirs_trans w1 w2 w3 : keeps_dirs w1 w2 -> keeps_dirs w2 w3 -> keeps_dirs w1 w3.
Proof.
  intros [Hc1 Hd1] [Hc2 Hd2]. split; [congruence|].
  intros k Hk. apply Hd2, Hd1, Hk.
Qed.

Lemma is_dir_kept p w w' :
  keeps_dirs w w' -> Os.is_dir p w = (Ok true, w) -> Os.is_dir p w' = (Ok true, w').
Proof.
  intros [Hc Hd]. unfold Os.is_dir, Os.locate. rewrite Hc.
  destruct (Os.walk (fs w) _ (parts p)) as [k|e] eqn:Ew; [|done].
  rewrite (walk_mono _ _ _ _ _ Hd Ew).
  destruct (Os.node_at (fs w) k) as [[|]|] eqn:En; try done.
  by rewrite (node_at_dir_mono _ _ _ Hd En).
Qed.

Lemma open_rb_keeps p : preserves keeps_dirs (Os.open_rb p).
Proof.
  intros w r w' Ho. pose proof (open_rb_world p w) as Hw. rewrite Ho in Hw.
  simpl in Hw. subst w'. apply keeps_dirs_refl.
Qed.

Lemma open_wb_inv p w r w' :
  Os.open_wb p w = (r, w') ->
  (exists k, r = Ok k /\ Os.locate w p = Ok k /\ k <> [] /\ fs w !! k <> Some Dir
             /\ w' = set_fs w (<[k := File []]> (fs w)))
  \/ ((exists e, r = Raise e) /\ w' = w).
Proof.
  unfold Os.open_wb. destruct (Os.locate w p) as [k|e] eqn:El.
  - destruct (Os.node_at (fs w) k) as [[c|]|] eqn:En; intros [= <- <-].
    + left. exists k. destruct k; [done|]. simpl in En. repeat split; try done.
      by rewrite En.
    + right. eauto.
    + left. exists k. destruct k; [done|]. simpl in En. repeat split; try done.
      by rewrite En.
  - intros [= <- <-]. right. eauto.
Qed.

Lemma insert_file_keeps w k c :
  fs w !! k <> Some Dir -> keeps_dirs w (set_fs w (<[k := File c]> (fs w))).
Proof.
  intros Hk. split; [done|]. intros k0 Hk0. simpl.
  rewrite lookup_insert_ne; [done|]. congruence.
Qed.

Lemma open_wb_keeps p : preserves keeps_dirs (Os.open_wb p).
Proof.
  intros w r w' Ho.
  apply open_wb_inv in Ho as [(k & _ & _ & _ & Hk & ->) | (_ & ->)].
  - by apply insert_file_keeps.
  - apply keeps_dirs_refl.
Qed.

Lemma write_keeps k chunk : preserves keeps_dirs (Os.write k chunk).
Proof.
  intros w r w'. unfold Os.write.
  destruct (fs w !! k) as [[c|]|] eqn:E; intros [= _ <-];
    try apply keeps_dirs_refl.
  apply insert_file_keeps. by rewrite E.
Qed.

Lemma copy_loop_keeps `{Platform} size rest clean fout :
  preserves keeps_dirs (copy_loop size rest clean fout).
Proof.
  apply (copy_loop_elim (fun size rest clean fout res => preserves keeps_dirs res)).
  - intros sz r b0 e cl fo _.
    destruct cl; [apply preserves_ret | apply preserves_raise];
      apply keeps_dirs_refl.
  - intros sz r b bs r' e cl fo IH _ w res w' Hrun.
    specialize (IH tt w).
    revert w res w' Hrun. change (preserves keeps_dirs
      (Os.write fo (b :: bs) ;;; copy_loop sz r' cl fo)).
    apply preserves_bind; [apply keeps_dirs_trans | apply write_keeps | done].
  - intros sz r e0 e cl fo _. apply preserves_raise, keeps_dirs_refl.
Qed.

Lemma check_members_keeps `{Platform} dest_dir ms :
  preserves keeps_dirs (check_members dest_dir ms).
Proof.
  intros w r w' Hc. rewrite check_members_spec in Hc. injection Hc as _ <-.
  apply keeps_dirs_refl.
Qed.

Lemma tarfile_extractall_keeps `{Platform} tf dest_dir :
  preserves keeps_dirs (tarfile_extractall tf dest_dir).
Proof.
  intros w r w'. unfold tarfile_extractall.
  destruct (extractall tf dest_dir (cwd w) (fs w)) as [r0 f'] eqn:E.
  intros [= _ <-]. split; [done|].
  intros k Hk. simpl. eapply extractall_keeps_dirs; eassumption.
Qed.

Lemma extract_container_keeps `{Platform} archive_path dest_dir :
  preserves keeps_dirs (extract_container archive_path dest_dir).
Proof.
  pose proof keeps_dirs_refl as Hr. pose proof keeps_dirs_trans as Ht.
  unfold extract_container, tarfile_open_path.
  apply preserves_try_except_ReadError; [done | | by apply preserves_ret].
  apply preserves_bind; [done | |].
  { apply preserves_bind; [done | apply open_rb_keeps |].
    intros c. by apply preserves_lift. }
  intros tf. apply preserves_bind; [done | by apply preserves_lift |].
  intros ms. apply preserves_bind; [done | apply check_members_keeps |].
  intros _. apply preserves_bind; [done | apply tarfile_extractall_keeps |].
  intros _. by apply preserves_ret.
Qed.

Lemma extract_raw_keeps `{Platform} archive_path dest_dir :
  preserves keeps_dirs (extract_raw archive_path dest_dir).
Proof.
  pose proof keeps_dirs_refl as Hr. pose proof keeps_dirs_trans as Ht.
  unfold extract_raw, lzma_open.
  apply preserves_bind; [done | |].
  { apply preserves_bind; [done | apply open_rb_keeps |].
    intros c. by apply preserves_ret. }
  intros fin. apply preserves_bind; [done | apply open_wb_keeps |].
  intros fout. apply preserves_bind; [done | apply copy_loop_keeps |].
  intros _. by apply preserves_ret.
Qed.

(** C10 (amended): [extract_tar_xz] creates the destination directory,
    missing parents included, before anything else.  When that creation
    fails the call fails with its exception.  When it succeeds, the
    destination is a directory after the call however the call ends:
    normally, with the path-traversal exception, with a decompression error
    or any other; a failed extraction does not undo the creation. *)
Theorem extract_tar_xz_leaves_destination `{Platform}
    (archive_path dest_dir : Path) (w w0 : World) :
  (forall e, Os.mkdir_parents dest_dir w = (Raise e, w0) ->
     extract_tar_xz archive_path dest_dir w = (Raise e, w0))
  /\ (Os.mkdir_parents dest_dir w = (Ok tt, w0) ->
      forall r w', extract_tar_xz archive_path dest_dir w = (r, w') ->
        Os.is_dir dest_dir w' = (Ok true, w')).
Proof.
  split.
  - intros e Hmk. unfold extract_tar_xz. by apply bind_raise.
  - intros Hmk r w' Hrun.
    pose proof (mkdir_parents_ok_is_dir _ _ _ Hmk) as Hdir.
    unfold extract_tar_xz in Hrun. rewrite (bind_ok _ _ _ _ _ Hmk) in Hrun.
    apply (is_dir_kept dest_dir w0 w'); [|exact Hdir].
    apply bind_inv in Hrun as [(o & w1 & Hc & Hk) | (e & Hc & _)].
    + apply extract_container_keeps in Hc.
      eapply keeps_dirs_trans; [exact Hc|].
      destruct o as [kind|].
      * injection Hk as _ <-. apply keeps_dirs_refl.
      * eapply extract_raw_keeps. exact Hk.
    + eapply extract_container_keeps. exact Hc.
Qed.

Lemma extract_tar_xz_leaves_destination_witness :
  let arc := Toy.src_dir // "evil.tar.xz" in
  Os.is_dir Toy.out_dir Toy.w_archives = (Ok false, Toy.w_archives)
  /\ fst (@extract_tar_xz Toy.platform arc Toy.out_dir Toy.w_archives)
     = Raise (Blocked "../x")
  /\ let w' := snd (@extract_tar_xz Toy.platform arc Toy.out_dir Toy.w_archives) in
     Os.is_dir Toy.out_dir w' = (Ok true, w').
Proof.
  split; [vm_compute; reflexivity|]. split; [vm_compute; reflexivity|].
  apply (proj2 (@extract_tar_xz_leaves_destination Toy.platform
                  (Toy.src_dir // "evil.tar.xz") Toy.out_dir Toy.w_archives
                  (snd (Os.mkdir_parents Toy.out_dir Toy.w_archives)))
           ltac:(vm_compute; reflexivity)
           (fst (@extract_tar_xz Toy.platform (Toy.src_dir // "evil.tar.xz")
                   Toy.out_dir Toy.w_archives))).
  apply surjective_pairing.
Defined.

(** C10, as stated, fails: when the destination path is taken by a regular
    file the creation raises, and no destination directory exists after the
    call. *)
Lemma extract_tar_xz_destination_taken_by_file :
  let arc := Toy.src_dir // "dot.tar.xz" in
  @extract_tar_xz Toy.platform arc Toy.out_dir Toy.w_dest_is_file
  = (Raise FileExistsError, Toy.w_dest_is_file)
  /\ Os.is_dir Toy.out_dir Toy.w_dest_is_file = (Ok false, Toy.w_dest_is_file).
Proof. vm_compute. done. Qed.

(** ** extract_tar_xz: the raw fallback *)

Lemma walk_app f cur ps qs :
  Os.walk f cur (ps ++ qs) =
  match Os.walk f cur ps with
  | Ok k => Os.walk f k qs
  | Raise e => Raise e
  end.
Proof.
  revert cur. induction ps as [|c ps IH]; intros cur; [done|].
  simpl. by destruct (Os.node_at f cur) as [[|]|].
Qed.

Lemma world_eta w : mkWorld (fs w) (cwd w) (out w) = w.
Proof. by destruct w. Qed.

(** The copy loop appends the whole stream to the output file, then ends
    as the stream does. *)
Lemma copy_loop_spec `{Platform} size rest clean fout :
  forall w c0,
    served size -> fs w !! fout = Some (File c0) ->
    copy_loop size rest clean fout w =
    (if clean then Ok tt else Raise LZMAError,
     set_fs w (<[fout := File (c0 ++ rest)]> (fs w))).
Proof.
  apply (copy_loop_elim
    (fun size rest clean fout res =>
       forall w c0, served size -> fs w !! fout = Some (File c0) ->
         res w = (if clean then Ok tt else Raise LZMAError,
                  set_fs w (<[fout := File (c0 ++ rest)]> (fs w))))).
  - intros sz r b0 e cl fo _ w c0 Hsz Hf.
    rewrite (read_chunk_served sz r Hsz) in e. injection e as Ht Hd.
    pose proof (take_drop_empty sz r ltac:(destruct Hsz; lia) Ht) as Hd'.
    rewrite <- (take_drop (Z.to_nat sz) r), Ht, Hd', !app_nil_r.
    rewrite (insert_id _ _ _ Hf). unfold set_fs. rewrite world_eta.
    by destruct cl.
  - intros sz r b bs r' e cl fo IH _ w c0 Hsz Hf.
    specialize (IH tt w). unfold bind, Os.write. rewrite Hf.
    rewrite (IH _ (c0 ++ b :: bs) Hsz) by (simpl; apply lookup_insert_eq).
    f_equal. unfold set_fs. simpl. f_equal.
    rewrite insert_insert_eq. do 2 f_equal.
    rewrite <- app_assoc. f_equal.
    rewrite (read_chunk_served sz r Hsz) in e. injection e as Ht Hd.
    by rewrite <- (take_drop (Z.to_nat sz) r), Ht, Hd.
  - intros sz r e0 e cl fo _ w c0 Hsz Hf.
    rewrite (read_chunk_served sz r Hsz) in e. discriminate e.
Qed.

Lemma is_dir_true_inv p w :
  Os.is_dir p w = (Ok true, w) ->
  exists k, Os.locate w p = Ok k /\ Os.node_at (fs w) k = Some Dir.
Proof.
  unfold Os.is_dir. destruct (Os.locate w p) as [k|e]; [|done].
  destruct (Os.node_at (fs w) k) as [[|]|] eqn:E; try done. eauto.
Qed.

(** A raw stream in an archive that [tarfile] refuses is written whole to
    one file of the destination, named after the archive. *)
Lemma extract_tar_xz_raw `{Platform} archive_path dest_dir o w w0 c data clean :
  PathOps.parse (raw_out_name (PathOps.name archive_path)) = mkPath false [o] ->
  (o =? "..")%string = false ->
  Os.mkdir_parents dest_dir w = (Ok tt, w0) ->
  Os.open_rb archive_path w0 = (Ok c, w0) ->
  tarfile_open c = Raise ReadError ->
  lzma_stream c = (data, clean) ->
  exists kd, Os.locate w0 dest_dir = Ok kd /\
    (fs w0 !! (kd ++ [o]) <> Some Dir ->
     extract_tar_xz archive_path dest_dir w =
     (if clean then Ok "rawxz" else Raise LZMAError,
      set_fs w0 (<[kd ++ [o] := File data]> (fs w0)))).
Proof.
  intros Hparse Hdd Hmk Hopen Htf Hlz.
  destruct (is_dir_true_inv _ _ (mkdir_parents_ok_is_dir _ _ _ Hmk)) as (kd & Hl & Hn).
  exists kd. split; [done|]. intros Hfree.
  unfold extract_tar_xz. rewrite (bind_ok _ _ _ _ _ Hmk).
  assert (Hcont : extract_container archive_path dest_dir w0 = (Ok None, w0)).
  { unfold extract_container, try_except_ReadError, tarfile_open_path.
    unfold bind at 1 2. rewrite Hopen. unfold lift. by rewrite Htf. }
  rewrite (bind_ok _ _ _ _ _ Hcont).
  unfold extract_raw, lzma_open. unfold bind at 1 2. rewrite Hopen. unfold ret at 1.
  rewrite Hlz. simpl fst. simpl snd.
  assert (Hloc : Os.locate w0 (dest_dir // raw_out_name (PathOps.name archive_path))
                 = Ok (kd ++ [o])).
  { unfold Os.locate, PathOps.join in *. rewrite Hparse. simpl.
    rewrite walk_app, Hl. simpl. rewrite Hn. unfold PathOps.step. by rewrite Hdd. }
  assert (Hwb : Os.open_wb (dest_dir // raw_out_name (PathOps.name archive_path)) w0
                = (Ok (kd ++ [o]), set_fs w0 (<[kd ++ [o] := File []]> (fs w0)))).
  { unfold Os.open_wb. rewrite Hloc.
    assert (Hk : Os.node_at (fs w0) (kd ++ [o]) = fs w0 !! (kd ++ [o])).
    { by destruct kd. }
    rewrite Hk. by destruct (fs w0 !! (kd ++ [o])) as [[|]|]. }
  unfold bind at 1. rewrite Hwb. unfold bind.
  rewrite (copy_loop_spec (1024 * 1024) _ _ _ _ [] served_chunk)
    by (simpl; apply lookup_insert_eq).
  simpl. unfold set_fs. simpl. rewrite insert_insert_eq.
  by destruct clean.
Qed.

(** C4 (amended): for an archive named [payload.tar.xz] whose bytes
    [tarfile] refuses with [ReadError] and [lzma] decompresses cleanly to
    [data], the call falls back to the raw mode, returns ["rawxz"], and the
    only change to the file system left by the creation of the destination
    is one file named [payload] (both suffixes are stripped) directly in
    the destination, holding [data]; this needs that no directory of that
    name is in the way. *)
Theorem extract_tar_xz_raw_payload `{Platform}
    (archive_path dest_dir : Path) (w w0 : World) (c data : bytes) :
  PathOps.name archive_path = "payload.tar.xz" ->
  Os.mkdir_parents dest_dir w = (Ok tt, w0) ->
  Os.open_rb archive_path w0 = (Ok c, w0) ->
  tarfile_open c = Raise ReadError ->
  lzma_stream c = (data, true) ->
  raw_out_name "payload.tar.xz" = "payload"
  /\ exists kd, Os.locate w0 dest_dir = Ok kd /\
       (fs w0 !! (kd ++ ["payload"]) <> Some Dir ->
        extract_tar_xz archive_path dest_dir w =
        (Ok "rawxz", set_fs w0 (<[kd ++ ["payload"] := File data]> (fs w0)))).
Proof.
  intros Hname Hmk Hopen Htf Hlz. split; [reflexivity|].
  apply (extract_tar_xz_raw archive_path dest_dir "payload" w w0 c data true);
    try done.
  by rewrite Hname.
Qed.

Lemma extract_tar_xz_raw_payload_witness :
  let arc := Toy.src_dir // "payload.tar.xz" in
  let w0 := snd (Os.mkdir_parents Toy.out_dir Toy.w_archives) in
  raw_out_name "payload.tar.xz" = "payload"
  /\ exists kd, Os.locate w0 Toy.out_dir = Ok kd /\
       (fs w0 !! (kd ++ ["payload"]) <> Some Dir ->
        @extract_tar_xz Toy.platform arc Toy.out_dir Toy.w_archives =
        (Ok "rawxz",
         set_fs w0 (<[kd ++ ["payload"] := File (bytes_of "raw bytes")]> (fs w0)))).
Proof.
  apply (@extract_tar_xz_raw_payload Toy.platform
           (Toy.src_dir // "payload.tar.xz") Toy.out_dir Toy.w_archives
           (snd (Os.mkdir_parents Toy.out_dir Toy.w_archives))
           (bytes_of "Xraw bytes") (bytes_of "raw bytes")).
  - reflexivity.
  - vm_compute. reflexivity.
  - vm_compute. reflexivity.
  - reflexivity.
  - reflexivity.
Defined.

(** C4, as stated, fails: the file written for [payload.tar.xz] is named
    [payload], and no [payload.tar] appears in the destination. *)
Lemma extract_tar_xz_raw_payload_not_tar :
  let arc := Toy.src_dir // "payload.tar.xz" in
  let r := @extract_tar_xz Toy.platform arc Toy.out_dir Toy.w_archives in
  fst r = Ok "rawxz"
  /\ fs (snd r) !! ["out"; "payload.tar"] = None
  /\ fs (snd r) !! ["out"; "payload"] = Some (File (bytes_of "raw bytes")).
Proof. vm_compute. done. Qed.

(** ** process_top_level and process *)

Lemma print_say m w : print m w = (Ok tt, say w m).
Proof. reflexivity. Qed.

Lemma extract_and_report_spec `{Platform} archive_path dest_dir w :
  extract_and_report archive_path dest_dir w =
  match extract_tar_xz archive_path dest_dir w with
  | (Ok kind, w1) =>
      (Ok 1%Z, say w1 (extracted_msg kind (PathOps.name archive_path) dest_dir))
  | (Raise e, w1) =>
      (Ok 0%Z, say w1 (MsgExtractError (PathOps.name archive_path) e))
  end.
Proof.
  unfold extract_and_report, try_except, bind, extracted_msg.
  destruct (extract_tar_xz archive_path dest_dir w) as [[kind|e] w1]; [|done].
  by destruct (kind =? "tarxz")%string.
Qed.




Lemma process_top_level_none `{Platform} archive_path dest_dir w :
  process_top_level archive_path dest_dir None w
  = extract_and_report archive_path dest_dir w.
Proof. reflexivity. Qed.

(** What [process] does once the destination is there and the top-level
    archive is found. *)
Lemma process_top_step `{Platform} src_dir dest_dir name w w0 :
  let top_level_archive := src_dir // name in
  Os.mkdir_parents dest_dir w = (Ok tt, w0) ->
  Os.exists_ top_level_archive w0 = (Ok true, w0) ->
  match extract_tar_xz top_level_archive dest_dir w0 with
  | (Ok kind, w1) =>
      process src_dir dest_dir name w =
      process_subdirs dest_dir dest_dir
        (say w1 (extracted_msg kind (PathOps.name top_level_archive) dest_dir))
  | (Raise e, w1) =>
      process src_dir dest_dir name w =
      (Ok 1%Z, say w1 (MsgExtractError (PathOps.name top_level_archive) e))
  end.
Proof.
  intros top Hmk Hex.
  unfold process. fold top.
  rewrite (bind_ok _ _ _ _ _ Hmk), (bind_ok _ _ _ _ _ Hex). cbv iota.
  pose proof (extract_and_report_spec top dest_dir w0) as Hrep.
  rewrite <- process_top_level_none in Hrep.
  destruct (extract_tar_xz top dest_dir w0) as [[kind|e] w1];
    by rewrite (bind_ok _ _ _ _ _ Hrep).
Qed.

(** C8: [process] hands [process_top_level] no checksum directory, and
    without one [process_top_level] is the extraction and its report.  So
    in every run that finds the top-level archive, whatever the source
    directory holds and whatever the hash function is, the first thing done
    after creating the destination is to extract that archive: if the
    extraction returns, the run goes on to the subdirectories; if it
    raises, the run ends with 1 after the report of the error.  No other
    way leads to 1, so the abort on a top-level checksum mismatch cannot be
    reached from [process]. *)
Theorem process_skips_top_level_checksum `{Platform}
    (src_dir dest_dir : Path) (name : string) (w w0 : World) :
  let top_level_archive := src_dir // name in
  Os.mkdir_parents dest_dir w = (Ok tt, w0) ->
  Os.exists_ top_level_archive w0 = (Ok true, w0) ->
  process_top_level top_level_archive dest_dir None w0
  = extract_and_report top_level_archive dest_dir w0
  /\ match extract_tar_xz top_level_archive dest_dir w0 with
     | (Ok kind, w1) =>
         process src_dir dest_dir name w =
         process_subdirs dest_dir dest_dir
           (say w1 (extracted_msg kind (PathOps.name top_level_archive) dest_dir))
     | (Raise e, w1) =>
         process src_dir dest_dir name w =
         (Ok 1%Z, say w1 (MsgExtractError (PathOps.name top_level_archive) e))
     end.
Proof.
  intros top Hmk Hex. split; [reflexivity|]. by apply process_top_step.
Qed.

Lemma process_skips_top_level_checksum_witness :
  let w := Toy.w_top_mismatch in
  let top := Toy.src_dir // Toy.top_name in
  match @extract_tar_xz Toy.platform top Toy.src_dir w with
  | (Ok kind, w1) =>
      @process Toy.platform Toy.src_dir Toy.src_dir Toy.top_name w =
      @process_subdirs Toy.platform Toy.src_dir Toy.src_dir
        (say w1 (extracted_msg kind (PathOps.name top) Toy.src_dir))
  | (Raise e, w1) =>
      @process Toy.platform Toy.src_dir Toy.src_dir Toy.top_name w =
      (Ok 1%Z, say w1 (MsgExtractError (PathOps.name top) e))
  end.
Proof.
  apply (@process_skips_top_level_checksum Toy.platform
           Toy.src_dir Toy.src_dir Toy.top_name Toy.w_top_mismatch Toy.w_top_mismatch).
  - vm_compute. reflexivity.
  - vm_compute. reflexivity.
Defined.

(** On that world the archive is extracted although its companion file
    holds another digest, and the run ends with 0. *)
Lemma process_ignores_top_level_mismatch :
  let r := @process Toy.platform Toy.src_dir Toy.src_dir Toy.top_name Toy.w_top_mismatch in
  fst r = Ok 0%Z
  /\ out (snd r) = [MsgExtractedTarXz Toy.top_name Toy.src_dir]
  /\ fs (snd r) !! ["src"; "a.txt"] = Some (File (bytes_of "a.txt")).
Proof. vm_compute. done. Qed.

(** ** process_subdir *)







(** C2, at a failing input: with a [checksums] folder, a directory entry
    named [a.tar.xz] (which the glob enumerates) that has a well-formed
    companion file makes [sha256_file] raise outside every [try]: the loop
    ends there, and [b.tar.xz], whose companion matches and which on its own
    is verified and extracted, is never looked at.  Nothing is printed and
    nothing is written. *)
Theorem process_subdir_hash_failure_aborts :
  let checksum_dir := Toy.attack_dir // "checksums" in
  let r := @process_subdir Toy.platform Toy.attack_dir Toy.attack_dir Toy.attack_out
             Toy.w_nested in
  fst (Os.glob_sorted Toy.attack_dir ".tar.xz" Toy.w_nested)
  = Ok [Toy.attack_dir // "a.tar.xz"; Toy.attack_dir // "b.tar.xz"]
  /\ fst (@process_archive Toy.platform true checksum_dir Toy.attack_out
            (Toy.attack_dir // "b.tar.xz") Toy.w_nested) = Ok true
  /\ r = (Raise IsADirectoryError, Toy.w_nested).
Proof. vm_compute. done. Qed.

(** The sibling branch, without a [checksums] folder, meets the same entry
    inside its [try]: the error is reported, [b.tar.xz] is extracted, and
    the count is 1 of 2. *)
Lemma process_subdir_unchecked_survives :
  let r := @process_subdir Toy.platform Toy.attack_dir Toy.attack_dir Toy.attack_out
             Toy.w_nested_unchecked in
  fst r = Ok 1%Z
  /\ out (snd r) = [ MsgNoChecksumDir Toy.attack_dir;
                     MsgExtractError "a.tar.xz" IsADirectoryError;
                     MsgExtracted "b.tar.xz" Toy.attack_out;
                     MsgDone "attack_data" 1 2 ].
Proof. vm_compute. done. Qed.

(** ** main *)

Lemma main_invalid_source `{Platform} src_dir dest_dir w :
  let src := mkPath true (PathOps.resolve (cwd w) (PathOps.parse (expanduser src_dir))) in
  Os.is_dir src w = (Ok false, w) ->
  main src_dir dest_dir w = (Ok 2%Z, say w (MsgNotADirectory src)).
Proof.
  intros src Hdir. unfold main, resolved_arg.
  unfold bind at 1 2. unfold get_world, ret at 1. fold src.
  by rewrite (bind_ok _ _ _ _ _ Hdir).
Qed.

Lemma process_subdirs_value `{Platform} extracted_src dest_dir w z w' :
  process_subdirs extracted_src dest_dir w = (Ok z, w') -> z = 0%Z.
Proof.
  unfold process_subdirs. intros Hrun.
  repeat match goal with
         | Hb : bind _ _ _ = (Ok _, _) |- _ =>
             apply bind_inv in Hb as [(? & ? & _ & Hb) | (? & _ & ?)]; [|done]
         end.
  by injection Hrun as <- _.
Qed.

(** A run of [process] that returns gives 0 or 1. *)
Lemma process_value `{Platform} src_dir dest_dir name w z w' :
  process src_dir dest_dir name w = (Ok z, w') -> z = 0%Z \/ z = 1%Z.
Proof.
  unfold process. intros Hrun.
  apply bind_inv in Hrun as [(? & w1 & _ & Hrun) | (? & _ & ?)]; [|done].
  apply bind_inv in Hrun as [(e & w2 & _ & Hrun) | (? & _ & ?)]; [|done].
  destruct e.
  - apply bind_inv in Hrun as [(r & w3 & _ & Hrun) | (? & _ & ?)]; [|done].
    destruct (r =? 1)%Z.
    + left. by eapply process_subdirs_value.
    + right. by injection Hrun as <- _.
  - apply bind_inv in Hrun as [(? & w3 & _ & Hrun) | (? & _ & ?)]; [|done].
    right. by injection Hrun as <- _.
Qed.


Lemma is_dir_ok p w : exists b, Os.is_dir p w = (Ok b, w).
Proof. unfold Os.is_dir. destruct (Os.locate w p); eauto. Qed.


(** X14: the value [main] hands to [sys.exit], when it gets there: 2
    exactly when the resolved source is not a directory, and then the file
    system is untouched; otherwise 0 or 1. *)
Lemma main_exit_code `{Platform} src_dir dest_dir w z w' :
  let src := mkPath true (PathOps.resolve (cwd w) (PathOps.parse (expanduser src_dir))) in
  main src_dir dest_dir w = (Ok z, w') ->
  (fst (Os.is_dir src w) = Ok false /\ z = 2%Z /\ fs w' = fs w)
  \/ (fst (Os.is_dir src w) = Ok true /\ (z = 0%Z \/ z = 1%Z)).
Proof.
  intros src Hrun. destruct (is_dir_ok src w) as [[|] Hdir]; rewrite Hdir; simpl fst.
  - right. split; [done|].
    unfold main, resolved_arg in Hrun.
    unfold bind at 1 2 in Hrun. unfold get_world, ret at 1 in Hrun. fold src in Hrun.
    rewrite (bind_ok _ _ _ _ _ Hdir) in Hrun. cbn [negb] in Hrun.
    apply bind_inv in Hrun as [(dest & w1 & _ & Hrun) | (? & _ & ?)]; [|done].
    apply bind_inv in Hrun as [(? & w2 & _ & Hrun) | (? & _ & ?)]; [|done].
    by eapply process_value.
  - left. rewrite (main_invalid_source src_dir dest_dir w Hdir) in Hrun.
    by injection Hrun as <- <-.
Qed.

(** C3, at a failing input: the source directory is valid, the top-level
    archive is there and is extracted, yet the run does not end with 0: the
    directory entry [attack_data/a.tar.xz] with its companion file makes
    the hashing of a nested archive raise, nothing catches the exception,
    and the interpreter exits with status 1.  The same tree without the
    [checksums] folder ends with 0. *)
Theorem main_exit_status_nested_hash_failure :
  let r := @main Toy.platform "/d" None Toy.w_nested in
  fst (Os.is_dir Toy.data_dir Toy.w_nested) = Ok true
  /\ fst (Os.exists_ (Toy.data_dir // Toy.top_name) Toy.w_nested) = Ok true
  /\ out (snd r) = [MsgExtractedTarXz Toy.top_name Toy.data_dir]
  /\ fst r = Raise IsADirectoryError
  /\ exit_status (fst r) = 1%Z
  /\ exit_status (fst (@main Toy.platform "/d" None Toy.w_nested_unchecked)) = 0%Z.
Proof. vm_compute. done. Qed.

(** * Further properties *)

(** ** is_within_directory and safe_extract *)

Lemma proper_clean k : proper_parts k -> clean_parts k.
Proof. intros Hk. eapply Forall_impl; [exact Hk|]. by intros c [Hc _]. Qed.

Lemma keep_part_nonempty c : PathOps.keep_part c = true -> c <> "".
Proof. by intros Hk ->. Qed.

Lemma parse_proper s : proper_parts (parts (PathOps.parse s)).
Proof.
  unfold PathOps.parse. simpl.
  pose proof (split_sep_clean "" s eq_refl) as Hs.
  induction Hs as [|c l Hc Hl IH]; [constructor|].
  simpl. destruct (PathOps.keep_part c) eqn:E; [|done].
  constructor; [|done]. split; [done | by apply keep_part_nonempty].
Qed.

Lemma removelast_Forall {A} (P : A -> Prop) k : Forall P k -> Forall P (removelast k).
Proof.
  induction 1 as [|c k Hc Hk IH]; [constructor|].
  simpl. destruct k; [constructor | by constructor].
Qed.

Lemma resolve_proper c p :
  proper_parts c -> proper_parts (parts p) -> proper_parts (PathOps.resolve c p).
Proof.
  intros Hc Hp. unfold PathOps.resolve, PathOps.normalize.
  assert (Hs : proper_parts (if anchored p then [] else c)).
  { destruct (anchored p); [constructor | done]. }
  revert Hs. generalize (if anchored p then [] else c).
  induction Hp as [|x ps Hx Hps IH]; intros start Hs; [done|].
  simpl. apply IH. unfold PathOps.step. destruct (x =? "..")%string.
  - by apply removelast_Forall.
  - apply Forall_app. split; [done | by constructor].
Qed.

Lemma abspath_proper c s : proper_parts c -> proper_parts (OsPath.abspath c s).
Proof. intros Hc. apply resolve_proper; [done | apply parse_proper]. Qed.

Lemma common_prefix_is_prefix a b :
  OsPath.common_prefix a b = a <-> inside a b.
Proof.
  revert b. induction a as [|x a IH]; intros b.
  - split; [|done]. intros _. by exists b.
  - destruct b as [|y b].
    + split; [done|]. by intros [rest Hrest].
    + simpl. destruct (String.eqb_spec x y) as [->|Hne].
      * split.
        -- intros [= Heq]. apply IH in Heq as [rest ->]. by exists rest.
        -- intros [rest [= Hrest]]. f_equal. apply IH. by exists rest.
      * split; [done|]. intros [rest [= ? _]]. done.
Qed.

Lemma common_prefix_Forall (P : string -> Prop) a b :
  Forall P a -> Forall P (OsPath.common_prefix a b).
Proof.
  intros Ha. revert b. induction Ha as [|x a Hx Ha IH]; intros b; [constructor|].
  destruct b as [|y b]; [constructor|]. simpl.
  destruct (x =? y)%string; [by constructor | constructor].
Qed.

(** Two components followed by nothing or a separator are equal when the
    strings are. *)
Lemma append_component_inj c c2 X Y :
  no_sep c = true -> no_sep c2 = true ->
  X = "" \/ PathOps.starts_with_sep X = true ->
  Y = "" \/ PathOps.starts_with_sep Y = true ->
  (c ++ X = c2 ++ Y)%string -> c = c2 /\ X = Y.
Proof.
  revert c2. induction c as [|a c IH]; intros c2 Hc Hc2 HX HY Heq.
  - change (X = c2 ++ Y)%string in Heq.
    destruct c2 as [|b c2]; [done|]. exfalso.
    rewrite append_cons in Heq.
    destruct HX as [->|HX]; [done|]. subst X. simpl in HX, Hc2.
    by rewrite HX in Hc2.
  - simpl in Hc. apply andb_true_iff in Hc as [Ha Hc].
    destruct c2 as [|b c2].
    + exfalso. rewrite append_cons in Heq.
      change (String a (c ++ X) = Y)%string in Heq.
      destruct HY as [->|HY]; [done|]. subst Y. simpl in HY.
      by rewrite HY in Ha.
    + simpl in Hc2. apply andb_true_iff in Hc2 as [Hb Hc2].
      rewrite !append_cons in Heq. injection Heq as -> Heq.
      by destruct (IH c2 Hc Hc2 HX HY Heq) as [-> ->].
Qed.

Lemma concat_parts_inj a b :
  clean_parts a -> clean_parts b ->
  PathOps.concat_parts a = PathOps.concat_parts b -> a = b.
Proof.
  intros Ha. revert b. induction Ha as [|c a Hc Ha IH]; intros b Hb Heq.
  - by destruct b.
  - destruct Hb as [|c2 b Hc2 Hb]; [done|].
    simpl in Heq. injection Heq as Heq.
    apply append_component_inj in Heq as [-> Heq]; try done.
    + by rewrite (IH b Hb Heq).
    + destruct (concat_parts_starts a) as [->|?]; [by left | by right].
    + destruct (concat_parts_starts b) as [->|?]; [by left | by right].
Qed.

(** [str] of an absolute path determines its components. *)
Lemma str_abs_inj a b :
  proper_parts a -> proper_parts b -> PathOps.str_abs a = PathOps.str_abs b -> a = b.
Proof.
  intros Ha Hb. destruct a as [|c a], b as [|c2 b]; try done.
  - intros [= Heq]. exfalso. apply Forall_cons in Hb as [[_ Hne] _].
    destruct c2; [done | discriminate Heq].
  - intros [= Heq]. exfalso. apply Forall_cons in Ha as [[_ Hne] _].
    destruct c; [done | discriminate Heq].
  - intros Heq. apply concat_parts_inj; [by apply proper_clean.. | done].
Qed.

(** What [is_within_directory] decides, on components. *)
Lemma is_within_directory_value directory target w :
  proper_parts (cwd w) ->
  exists b, is_within_directory directory target w = (Ok b, w)
    /\ (b = true <->
        inside (OsPath.abspath (cwd w) directory) (OsPath.abspath (cwd w) target)).
Proof.
  intros Hcwd. eexists. split; [reflexivity|].
  set (d := OsPath.abspath (cwd w) directory).
  set (t := OsPath.abspath (cwd w) target).
  assert (Hd : proper_parts d) by by apply abspath_proper.
  simpl. rewrite <- common_prefix_is_prefix. split.
  - intros Heq%String.eqb_eq. symmetry.
    apply str_abs_inj; [done | by apply common_prefix_Forall | done].
  - intros ->. apply String.eqb_refl.
Qed.

(** X1: [is_within_directory] returns [True] exactly when the normalised
    absolute target is the normalised absolute directory or lies below it,
    component by component (so [/d] does not contain [/dd], and it does
    contain itself); it changes nothing. *)
Theorem is_within_directory_iff_inside (directory target : string) (w : World) :
  proper_parts (cwd w) ->
  exists b, is_within_directory directory target w = (Ok b, w)
    /\ (b = true <->
        inside (OsPath.abspath (cwd w) directory) (OsPath.abspath (cwd w) target)).
Proof. apply is_within_directory_value. Qed.

Lemma is_within_directory_iff_inside_witness :
  exists b, is_within_directory "/d" "/d/../dd/x" (Toy.world []) = (Ok b, Toy.world [])
    /\ (b = true <-> inside ["d"] ["dd"; "x"]).
Proof.
  apply (is_within_directory_iff_inside "/d" "/d/../dd/x" (Toy.world [])).
  constructor.
Defined.

Lemma safe_extract_check_find `{Platform} path ms w :
  proper_parts (cwd w) ->
  exists r, safe_extract_check path ms w = (r, w) /\
    ((exists m, r = Raise (Blocked (Tarfile.name m)) /\ In m ms /\
        ~ inside (OsPath.abspath (cwd w) path)
                 (OsPath.abspath (cwd w) (OsPath.join path (Tarfile.name m))))
     \/ (r = Ok tt /\
         forall m, In m ms ->
           inside (OsPath.abspath (cwd w) path)
                  (OsPath.abspath (cwd w) (OsPath.join path (Tarfile.name m))))).
Proof.
  intros Hcwd. induction ms as [|m ms IH].
  - exists (Ok tt). split; [done|]. right. split; [done|]. by intros m [].
  - destruct (is_within_directory_value path (OsPath.join path (Tarfile.name m)) w Hcwd)
      as (b & Hrun & Hb).
    simpl safe_extract_check. rewrite (bind_ok _ _ _ _ _ Hrun).
    destruct b; cbn [negb].
    + destruct IH as (r & Hr & [(m' & -> & Hin & Hout) | (-> & Hall)]).
      * exists (Raise (Blocked (Tarfile.name m'))). split; [done|].
        left. exists m'. repeat split; [by right | done].
      * exists (Ok tt). split; [done|]. right. split; [done|].
        intros m' [<-|Hin]; [by apply Hb | by apply Hall].
    + exists (Raise (Blocked (Tarfile.name m))). split; [done|].
      left. exists m. repeat split; [by left|].
      intros Hin. apply Hb in Hin. done.
Qed.

(** X2: [safe_extract] looks at every member before it extracts.  If some
    member's normalised target ([path] joined with the member name) is
    outside [path], it raises the path-traversal exception for a member
    that is outside and leaves the world exactly as it was: [extractall] is
    not reached.  If every member is inside, the call is [extractall]. *)
Theorem safe_extract_blocks_or_extracts `{Platform}
    (tar : TarFile) (path : string) (ms : list Tarfile.TarInfo) (w : World) :
  proper_parts (cwd w) ->
  getmembers tar = Ok ms ->
  let outside m :=
    ~ inside (OsPath.abspath (cwd w) path)
             (OsPath.abspath (cwd w) (OsPath.join path (Tarfile.name m))) in
  ((exists m, In m ms /\ outside m) ->
   exists m', In m' ms /\ outside m'
     /\ safe_extract tar path w = (Raise (Blocked (Tarfile.name m')), w))
  /\ ((forall m, In m ms -> ~ outside m) ->
      safe_extract tar path w = tarfile_extractall tar (PathOps.parse path) w).
Proof.
  intros Hcwd Hms outside.
  destruct (safe_extract_check_find path ms w Hcwd)
    as (r & Hr & [(m' & -> & Hin' & Hout') | (-> & Hall)]).
  - split.
    + intros _. exists m'. repeat split; [done..|].
      unfold safe_extract, lift. unfold bind at 1. rewrite Hms.
      by apply bind_raise.
    + intros Hin. exfalso. by apply (Hin m' Hin').
  - split.
    + intros (m & Hin & Hout). exfalso. by apply Hout, Hall.
    + intros _. unfold safe_extract, lift. unfold bind at 1. rewrite Hms.
      by rewrite (bind_ok _ _ _ _ _ Hr).
Qed.

Lemma safe_extract_blocks_or_extracts_witness :
  let w := Toy.w_archives in
  exists m', In m' (Toy.members (bytes_of "a.txt|../x"))
    /\ ~ inside (OsPath.abspath (cwd w) "/out")
                (OsPath.abspath (cwd w) (OsPath.join "/out" (Tarfile.name m')))
    /\ @safe_extract Toy.platform (Toy.members (bytes_of "a.txt|../x")) "/out" w
       = (Raise (Blocked (Tarfile.name m')), w).
Proof.
  apply (proj1 (@safe_extract_blocks_or_extracts Toy.platform
                  (Toy.members (bytes_of "a.txt|../x")) "/out"
                  (Toy.members (bytes_of "a.txt|../x")) Toy.w_archives
                  ltac:(constructor) eq_refl)).
  exists (Tarfile.mkTarInfo "../x" (bytes_of "../x")). split.
  - right. left. reflexivity.
  - intros [rest Hrest]. vm_compute in Hrest. discriminate Hrest.
Defined.

(** ** The two path checks compared *)

Lemma split_sep_app_sep cur a b :
  PathOps.split_sep cur (a ++ String sep b)
  = PathOps.split_sep cur a ++ PathOps.split_sep "" b.
Proof.
  revert cur. induction a as [|x a IH]; intros cur.
  - reflexivity.
  - rewrite append_cons. simpl. destruct (Ascii.eqb x sep); [|apply IH].
    simpl. f_equal. apply IH.
Qed.

Lemma ends_with_sep_inv a :
  OsPath.ends_with_sep a = true -> exists a', a = (a' ++ String sep "")%string.
Proof.
  induction a as [|x a IH]; [done|].
  destruct a as [|y a].
  - simpl. intros ->%Ascii.eqb_eq. by exists "".
  - intros Ha. destruct (IH Ha) as [a' ->]. by exists (String x a').
Qed.

Lemma starts_with_sep_app a b :
  a <> "" -> PathOps.starts_with_sep (a ++ b) = PathOps.starts_with_sep a.
Proof. by destruct a. Qed.

Lemma filter_keep_nil : List.filter PathOps.keep_part [""] = [].
Proof. reflexivity. Qed.

(** Parsing [os.path.join(a, b)] gives pathlib's [Path(a) / b]. *)
Lemma parse_os_join a b :
  PathOps.parse (OsPath.join a b) = PathOps.parse a // b.
Proof.
  unfold OsPath.join, PathOps.join.
  change (anchored (PathOps.parse b)) with (PathOps.starts_with_sep b).
  destruct (PathOps.starts_with_sep b) eqn:Eb; [done|].
  destruct (String.eqb_spec a "") as [->|Hne].
  - cbn [orb]. change ("" ++ b)%string with b.
    unfold PathOps.parse. simpl. by rewrite Eb.
  - simpl orb. unfold PathOps.parse. simpl.
    destruct (OsPath.ends_with_sep a) eqn:Ea.
    + destruct (ends_with_sep_inv a Ea) as [a' Ha'].
      assert (E1 : (a ++ b)%string = (a' ++ String sep b)%string).
      { rewrite Ha', append_assoc. reflexivity. }
      assert (E2 : List.filter PathOps.keep_part (PathOps.split_sep "" a)
                   = List.filter PathOps.keep_part (PathOps.split_sep "" a')).
      { rewrite Ha', split_sep_app_sep, List.filter_app.
        change (PathOps.split_sep "" "") with [""].
        by rewrite filter_keep_nil, app_nil_r. }
      rewrite E2. f_equal; [by apply starts_with_sep_app|].
      by rewrite E1, split_sep_app_sep, List.filter_app.
    + rewrite split_sep_app_sep, List.filter_app. f_equal.
      by apply starts_with_sep_app.
Qed.

(** X3: the two path checks of the script disagree on the destination
    itself.  For a member whose name has no component left once empty and
    ["."] components are dropped (["."], ["./"], ["./."], ...), the target
    is the destination: [is_within_directory] accepts it, so the loop of
    [safe_extract] lets such a member through, while the test of line 69
    refuses it and the loop of [extract_tar_xz] raises for it, whatever
    members follow. *)
Theorem path_checks_disagree_on_destination
    (path : string) (m : Tarfile.TarInfo) (ms : list Tarfile.TarInfo) (w : World) :
  PathOps.parse (Tarfile.name m) = mkPath false [] ->
  is_within_directory path (OsPath.join path (Tarfile.name m)) w = (Ok true, w)
  /\ safe_extract_check path [m] w = (Ok tt, w)
  /\ member_ok (cwd w) (PathOps.parse path) m = false
  /\ check_members (PathOps.parse path) (m :: ms) w
     = (Raise (Blocked (Tarfile.name m)), w).
Proof.
  intros Hname.
  assert (Hjoin : PathOps.parse path // Tarfile.name m = PathOps.parse path).
  { unfold PathOps.join. rewrite Hname. cbn [anchored parts]. rewrite app_nil_r.
    by destruct (PathOps.parse path). }
  assert (Hin : is_within_directory path (OsPath.join path (Tarfile.name m)) w
                = (Ok true, w)).
  { unfold is_within_directory, bind, get_world, ret, OsPath.abspath.
    rewrite parse_os_join, Hjoin. do 2 f_equal. simpl.
    rewrite (proj2 (common_prefix_is_prefix _ _)); [apply String.eqb_refl|].
    exists []. by rewrite app_nil_r. }
  assert (Hno : member_ok (cwd w) (PathOps.parse path) m = false).
  { unfold member_ok. rewrite Hjoin. apply startswith_self_sep. }
  split; [exact Hin|]. split; [|split; [exact Hno|]].
  - simpl safe_extract_check. by rewrite (bind_ok _ _ _ _ _ Hin).
  - simpl check_members. unfold bind, get_world. by rewrite Hno.
Qed.

Lemma path_checks_disagree_on_destination_witness :
  let w := Toy.world [] in
  let m := Tarfile.mkTarInfo "./." [] in
  is_within_directory "/out" (OsPath.join "/out" "./.") w = (Ok true, w)
  /\ safe_extract_check "/out" [m] w = (Ok tt, w)
  /\ member_ok (cwd w) (PathOps.parse "/out") m = false
  /\ check_members (PathOps.parse "/out")
       [m; Tarfile.mkTarInfo "a.txt" []] w = (Raise (Blocked "./."), w).
Proof.
  apply (path_checks_disagree_on_destination "/out"
           (Tarfile.mkTarInfo "./." []) [Tarfile.mkTarInfo "a.txt" []] (Toy.world [])).
  reflexivity.
Defined.

(** ** read_expected_sha256: the formats of the docstring *)

Lemma ishex_not_space c : Str.ishex c = true -> Str.isspace c = false.
Proof.
  unfold Str.ishex, Str.isspace. intros Hc.
  apply not_true_is_false. revert Hc.
  rewrite !orb_true_iff, !andb_true_iff, !N.leb_le, !N.eqb_eq. lia.
Qed.

Lemma lstrip_spaces_app lead t :
  forallb Str.isspace lead = true -> Str.lstrip (lead ++ t) = Str.lstrip t.
Proof.
  induction lead as [|c lead IH]; [done|].
  simpl. intros [-> Hl]%andb_true_iff. by apply IH.
Qed.

Lemma token_run_app tok rest :
  forallb Str.ishex tok = true ->
  (rest = [] \/ exists c r, rest = c :: r /\ Str.isspace c = true) ->
  token_run (tok ++ rest) = tok.
Proof.
  intros Htok Hrest. induction tok as [|c tok IH].
  - destruct Hrest as [->|(c & r & -> & Hc)]; [done|]. simpl. by rewrite Hc.
  - simpl in Htok. apply andb_true_iff in Htok as [Hc Htok].
    simpl. rewrite (ishex_not_space c Hc). by rewrite (IH Htok).
Qed.

(** X4: the formats named in the docstring are read as promised.  A file
    whose text is optional white space, then 64 hexadecimal digits, then
    nothing or white space followed by anything (a file name, [*] and a
    file name, further lines) gives exactly those 64 digits, in the case
    they were written in. *)
Theorem read_expected_sha256_sum_formats `{Platform}
    (path : Path) (w : World) (content : bytes) (lead h rest : text) :
  Os.open_rb path w = (Ok content, w) ->
  decode_ignore content = lead ++ h ++ rest ->
  forallb Str.isspace lead = true ->
  is_hex64 h = true ->
  (rest = [] \/ exists c r, rest = c :: r /\ Str.isspace c = true) ->
  read_expected_sha256 path w = (Ok (Some h), w).
Proof.
  intros Hopen Htext Hlead Hh Hrest.
  rewrite read_expected_sha256_value, Hopen. simpl fst. do 2 f_equal.
  rewrite Htext. unfold digest_of_text, first_token.
  rewrite (lstrip_spaces_app lead _ Hlead).
  pose proof Hh as Hh'. unfold is_hex64 in Hh'.
  apply andb_true_iff in Hh' as [Hlen Hhex].
  destruct h as [|c h]; [done|].
  simpl in Hhex. apply andb_true_iff in Hhex as [Hc Hhex].
  change ((c :: h) ++ rest) with (c :: (h ++ rest)).
  rewrite (lstrip_nonspace_head c _ (ishex_not_space c Hc)).
  change (c :: (h ++ rest)) with ((c :: h) ++ rest).
  rewrite token_run_app; [by apply clean_token_hex64 | | done].
  simpl. by rewrite Hc, Hhex.
Qed.

Lemma read_expected_sha256_sum_formats_witness :
  let line := (" " ++ Toy.hex64 "Ab" ++ " *data.tar.xz")%string in
  let w := Toy.world [(["x.sha256"], File (bytes_of line))] in
  @read_expected_sha256 Toy.platform (mkPath true ["x.sha256"]) w
  = (Ok (Some (text_of (Toy.hex64 "Ab"))), w).
Proof.
  apply (@read_expected_sha256_sum_formats Toy.platform
           (mkPath true ["x.sha256"])
           (Toy.world [(["x.sha256"],
                        File (bytes_of (" " ++ Toy.hex64 "Ab" ++ " *data.tar.xz")%string))])
           (bytes_of (" " ++ Toy.hex64 "Ab" ++ " *data.tar.xz")%string)
           (text_of " ") (text_of (Toy.hex64 "Ab")) (text_of " *data.tar.xz")).
  - vm_compute. reflexivity.
  - vm_compute. reflexivity.
  - reflexivity.
  - vm_compute. reflexivity.
  - right. eexists _, _. split; reflexivity.
Defined.

(** X5: whatever the file holds, a digest returned by
    [read_expected_sha256] has exactly 64 characters, all hexadecimal
    digits, and the call leaves the world as it was. *)
Theorem read_expected_sha256_returns_hex64 `{Platform}
    (path : Path) (w w' : World) (t : text) :
  read_expected_sha256 path w = (Ok (Some t), w') ->
  is_hex64 t = true /\ w' = w.
Proof.
  rewrite read_expected_sha256_value. intros [= Ht <-]. split; [|done].
  destruct (fst (Os.open_rb path w)) as [c|e]; [|done].
  unfold digest_of_text in Ht.
  destruct (first_token (decode_ignore c)) as [tok|]; [|done].
  pose proof (clean_token_hex tok t Ht) as Hhex.
  unfold clean_token in Ht.
  destruct (length (List.filter Str.ishex tok) =? 64)%nat eqn:Elen; [|done].
  injection Ht as <-. unfold is_hex64. rewrite Elen. simpl.
  apply forallb_forall. intros c0 Hc0.
  rewrite List.Forall_forall in Hhex. by apply Hhex.
Qed.

Lemma read_expected_sha256_returns_hex64_witness :
  is_hex64 (text_of (Toy.hex64 "0a")) = true
  /\ Toy.world [(["x.sha256"], File (bytes_of ("g" ++ Toy.hex64 "0a")%string))]
     = Toy.world [(["x.sha256"], File (bytes_of ("g" ++ Toy.hex64 "0a")%string))].
Proof.
  apply (@read_expected_sha256_returns_hex64 Toy.platform (mkPath true ["x.sha256"])).
  vm_compute. reflexivity.
Defined.

(** ** process_subdir: one archive *)







(** ** process_subdir: the counters *)

Lemma process_archives_counts `{Platform} has_checksums checksum_dir out_subdir archives :
  forall total ok w t o w',
    process_archives has_checksums checksum_dir out_subdir archives total ok w
    = (Ok (t, o), w') ->
    t = (total + Z.of_nat (length archives))%Z
    /\ (ok <= o <= ok + Z.of_nat (length archives))%Z.
Proof.
  induction archives as [|arc archives IH]; intros total ok w t o w' Hrun.
  - simpl in Hrun. injection Hrun as <- <- _. simpl. lia.
  - simpl process_archives in Hrun.
    apply bind_inv in Hrun as [(b & w1 & _ & Hrun) | (? & _ & ?)]; [|done].
    apply IH in Hrun as [-> Ho]. simpl length. destruct b; lia.
Qed.


Lemma glob_sorted_say p s w m :
  fst (Os.glob_sorted p s (say w m)) = fst (Os.glob_sorted p s w).
Proof.
  unfold Os.glob_sorted, Os.locate. simpl.
  destruct (Os.walk (fs w) _ (parts p)) as [k|e]; [|done].
  by destruct (Os.node_at (fs w) k) as [[|]|].
Qed.

(** X8: when [process_subdir] returns, its value, the number of archives
    extracted, lies between 0 and the number of entries the glob
    enumerated; with no entry it is 0. *)
Theorem process_subdir_count_bounds `{Platform}
    (src_dir dest_dir extracted_dest_dir : Path) (w w' : World) (n : Z) :
  process_subdir src_dir dest_dir extracted_dest_dir w = (Ok n, w') ->
  exists archives,
    fst (Os.glob_sorted src_dir ".tar.xz" w) = Ok archives
    /\ (0 <= n <= Z.of_nat (length archives))%Z.
Proof.
  unfold process_subdir. intros Hrun.
  apply bind_inv in Hrun as [(d & w1 & Hd & Hrun) | (? & _ & ?)]; [|done].
  apply is_dir_inv in Hd as ->.
  apply bind_inv in Hrun as [([] & w2 & Hp & Hrun) | (? & _ & ?)]; [|done].
  assert (Hglob : fst (Os.glob_sorted src_dir ".tar.xz" w2)
                  = fst (Os.glob_sorted src_dir ".tar.xz" w)).
  { destruct d; simpl in Hp; injection Hp as <-;
      [reflexivity | apply glob_sorted_say]. }
  apply bind_inv in Hrun as [(archives & w3 & Hg & Hrun) | (? & _ & ?)]; [|done].
  exists archives. rewrite <- Hglob, Hg. split; [done|].
  destruct archives as [|arc archives].
  - apply bind_inv in Hrun as [(? & w4 & _ & Hrun) | (? & _ & ?)]; [|done].
    injection Hrun as <- _. simpl. lia.
  - apply bind_inv in Hrun as [([t o] & w4 & Hloop & Hrun) | (? & _ & ?)]; [|done].
    apply process_archives_counts in Hloop as [_ Ho].
    apply bind_inv in Hrun as [(? & w5 & _ & Hrun) | (? & _ & ?)]; [|done].
    injection Hrun as <- _. simpl snd. lia.
Qed.

Lemma process_subdir_count_bounds_witness :
  exists archives,
    fst (Os.glob_sorted Toy.attack_dir ".tar.xz" Toy.w_nested_unchecked) = Ok archives
    /\ (0 <= 1 <= Z.of_nat (length archives))%Z.
Proof.
  apply (@process_subdir_count_bounds Toy.platform Toy.attack_dir Toy.attack_dir
           Toy.attack_out Toy.w_nested_unchecked
           (snd (@process_subdir Toy.platform Toy.attack_dir Toy.attack_dir
                   Toy.attack_out Toy.w_nested_unchecked)) 1%Z).
  vm_compute. reflexivity.
Defined.



(** ** process_top_level and process: the remaining cases *)




(** X12: when the top-level archive is not in the source directory,
    [process] creates the destination, prints that the archive was not
    found and returns 1; no regular file is created or changed and the
    subdirectories are not visited. *)
Theorem process_missing_top_level `{Platform}
    (src_dir dest_dir : Path) (name : string) (w w0 : World) :
  Os.mkdir_parents dest_dir w = (Ok tt, w0) ->
  Os.exists_ (src_dir // name) w0 = (Ok false, w0) ->
  process src_dir dest_dir name w = (Ok 1%Z, say w0 (MsgTopLevelNotFound name src_dir))
  /\ same_files w w0
  /\ Os.is_dir dest_dir w0 = (Ok true, w0).
Proof.
  intros Hmk Hex. split; [|split].
  - unfold process.
    rewrite (bind_ok _ _ _ _ _ Hmk), (bind_ok _ _ _ _ _ Hex). cbv iota.
    unfold bind. by rewrite print_say.
  - by destruct (mkdir_parents_only_new _ _ _ _ Hmk) as (_ & _ & Hf & _).
  - eapply mkdir_parents_ok_is_dir. exact Hmk.
Qed.

Lemma process_missing_top_level_witness :
  let w := Toy.w_archives in
  let w0 := snd (Os.mkdir_parents Toy.out_dir w) in
  @process Toy.platform Toy.src_dir Toy.out_dir Toy.top_name w
  = (Ok 1%Z, say w0 (MsgTopLevelNotFound Toy.top_name Toy.src_dir))
  /\ same_files w w0
  /\ Os.is_dir Toy.out_dir w0 = (Ok true, w0).
Proof.
  apply (@process_missing_top_level Toy.platform Toy.src_dir Toy.out_dir Toy.top_name
           Toy.w_archives (snd (Os.mkdir_parents Toy.out_dir Toy.w_archives))).
  - vm_compute. reflexivity.
  - vm_compute. reflexivity.
Defined.


Lemma main_exit_code_witness :
  let w := Toy.w_nested_unchecked in
  (fst (Os.is_dir (mkPath true ["nowhere"]) w) = Ok false /\ 2%Z = 2%Z
   /\ fs (snd (@main Toy.platform "/nowhere" None w)) = fs w)
  \/ (fst (Os.is_dir (mkPath true ["nowhere"]) w) = Ok true /\ (2 = 0 \/ 2 = 1)%Z).
Proof.
  apply (@main_exit_code Toy.platform "/nowhere" None Toy.w_nested_unchecked 2%Z
           (snd (@main Toy.platform "/nowhere" None Toy.w_nested_unchecked))).
  vm_compute. reflexivity.
Defined.

(** ** extract_tar_xz: the remaining paths *)

Lemma substring_all (s : string) : substring 0 (String.length s) s = s.
Proof. induction s as [|a s IH]; [done|]. simpl. by rewrite IH. Qed.

Lemma substring_prefix (b x : string) : substring 0 (String.length b) (b ++ x) = b.
Proof.
  induction b as [|a b IH]; [by destruct x|].
  rewrite append_cons. simpl. by rewrite IH.
Qed.

Lemma substring_suffix (b x : string) :
  substring (String.length b) (String.length x) (b ++ x) = x.
Proof.
  induction b as [|a b IH]; [apply substring_all|].
  rewrite append_cons. simpl. exact IH.
Qed.

Lemma endswith_append b x : PathOps.endswith (b ++ x) x = true.
Proof.
  unfold PathOps.endswith. rewrite length_append.
  replace (String.length b + String.length x - String.length x)%nat
    with (String.length b) by lia.
  rewrite substring_suffix, String.eqb_refl, andb_true_r.
  apply Nat.leb_le. lia.
Qed.

Lemma drop_last_append b x : PathOps.drop_last (String.length x) (b ++ x) = b.
Proof.
  unfold PathOps.drop_last. rewrite length_append.
  replace (String.length b + String.length x - String.length x)%nat
    with (String.length b) by lia.
  apply substring_prefix.
Qed.

(** X15: the name of the raw output.  For every base name [b], the archive
    names [b.tar.xz] and [b.tar] both give [b]; [b.xz] gives [b] unless [b]
    itself ends in [.tar]; and a name with neither suffix is kept. *)
Theorem raw_out_name_strips_suffixes (b : string) :
  raw_out_name (b ++ ".tar.xz") = b
  /\ raw_out_name (b ++ ".tar") = b
  /\ (PathOps.endswith b ".tar" = false -> raw_out_name (b ++ ".xz") = b)
  /\ (PathOps.endswith b ".xz" = false -> PathOps.endswith b ".tar" = false ->
      raw_out_name b = b).
Proof.
  assert (Hxz : forall s, PathOps.endswith (s ++ ".xz") ".xz" = true
                          /\ PathOps.drop_last 3 (s ++ ".xz") = s).
  { intros s. split; [apply endswith_append | apply (drop_last_append s ".xz")]. }
  assert (Htar : forall s, PathOps.endswith (s ++ ".tar") ".tar" = true
                           /\ PathOps.drop_last 4 (s ++ ".tar") = s).
  { intros s. split; [apply endswith_append | apply (drop_last_append s ".tar")]. }
  repeat split.
  - unfold raw_out_name.
    replace (b ++ ".tar.xz")%string with ((b ++ ".tar") ++ ".xz")%string
      by (by rewrite append_assoc).
    destruct (Hxz (b ++ ".tar")%string) as [-> ->].
    by destruct (Htar b) as [-> ->].
  - unfold raw_out_name.
    assert (Hno : PathOps.endswith (b ++ ".tar") ".xz" = false).
    { replace (b ++ ".tar")%string with ((b ++ ".") ++ "tar")%string
        by (by rewrite append_assoc).
      unfold PathOps.endswith. rewrite length_append.
      replace (String.length (b ++ ".") + String.length "tar" - String.length ".xz")%nat
        with (String.length (b ++ ".")) by (simpl; lia).
      change (String.length ".xz") with (String.length "tar").
      by rewrite substring_suffix, andb_false_r. }
    rewrite Hno. by destruct (Htar b) as [-> ->].
  - intros Hb. unfold raw_out_name. destruct (Hxz b) as [-> ->]. by rewrite Hb.
  - intros Hx Ht. unfold raw_out_name. by rewrite Hx, Ht.
Qed.

Lemma open_rb_raise_inv p w e w' :
  Os.open_rb p w = (Raise e, w') ->
  w' = w /\ (e = FileNotFoundError \/ e = NotADirectoryError \/ e = IsADirectoryError).
Proof.
  unfold Os.open_rb, Os.locate.
  assert (Hwalk : forall f cur ps e0, Os.walk f cur ps = Raise e0 ->
                    e0 = FileNotFoundError \/ e0 = NotADirectoryError).
  { intros f cur ps. revert cur. induction ps as [|c ps IH]; intros cur e0; [done|].
    simpl. destruct (Os.node_at f cur) as [[|]|]; [intros [= <-]; by right | apply IH |].
    intros [= <-]. by left. }
  destruct (Os.walk (fs w) _ (parts p)) as [k|e0] eqn:Ew.
  - destruct (Os.node_at (fs w) k) as [[|]|]; intros [= <- <-]; auto.
  - intros [= <- <-]. split; [done|]. destruct (Hwalk _ _ _ _ Ew); auto.
Qed.

(** X16: a failure to open the archive is not followed by the raw
    fallback.  When the archive is missing or is a directory, the call
    raises what [open] raised; all it has done is create the destination
    directory. *)
Theorem extract_tar_xz_unreadable_archive `{Platform}
    (archive_path dest_dir : Path) (w w0 : World) (e : exn) :
  Os.mkdir_parents dest_dir w = (Ok tt, w0) ->
  Os.open_rb archive_path w0 = (Raise e, w0) ->
  extract_tar_xz archive_path dest_dir w = (Raise e, w0)
  /\ same_files w w0.
Proof.
  intros Hmk Hopen. split.
  - unfold extract_tar_xz. rewrite (bind_ok _ _ _ _ _ Hmk).
    apply bind_raise. unfold extract_container, try_except_ReadError, tarfile_open_path.
    unfold bind at 1 2. rewrite Hopen.
    destruct (open_rb_raise_inv _ _ _ _ Hopen) as [_ [->|[->| ->]]]; reflexivity.
  - by destruct (mkdir_parents_only_new _ _ _ _ Hmk) as (_ & _ & Hf & _).
Qed.

Lemma extract_tar_xz_unreadable_archive_witness :
  let w0 := snd (Os.mkdir_parents Toy.out_dir Toy.w_archives) in
  @extract_tar_xz Toy.platform (Toy.src_dir // "absent.tar.xz") Toy.out_dir Toy.w_archives
  = (Raise FileNotFoundError, w0)
  /\ same_files Toy.w_archives w0.
Proof.
  apply (@extract_tar_xz_unreadable_archive Toy.platform
           (Toy.src_dir // "absent.tar.xz") Toy.out_dir Toy.w_archives
           (snd (Os.mkdir_parents Toy.out_dir Toy.w_archives)) FileNotFoundError).
  - vm_compute. reflexivity.
  - vm_compute. reflexivity.
Defined.

Lemma split_sep_no_sep cur b :
  no_sep b = true -> PathOps.split_sep cur b = [(cur ++ b)%string].
Proof.
  revert cur. induction b as [|a b IH]; intros cur Hb.
  - simpl. f_equal. induction cur as [|x cur IHc]; [done|].
    rewrite append_cons. by rewrite <- IHc.
  - simpl in Hb. apply andb_true_iff in Hb as [Ha Hb].
    simpl. destruct (Ascii.eqb a sep); [done|].
    rewrite (IH _ Hb). f_equal. by rewrite append_assoc.
Qed.

Lemma parse_plain_name b :
  no_sep b = true -> b <> "" -> b <> "." ->
  PathOps.parse b = mkPath false [b].
Proof.
  intros Hb Hne Hdot. unfold PathOps.parse.
  rewrite (split_sep_no_sep "" b Hb). change ("" ++ b)%string with b.
  assert (Hk : PathOps.keep_part b = true).
  { unfold PathOps.keep_part.
    destruct (String.eqb_spec b "") as [?|_]; [done|].
    by destruct (String.eqb_spec b ".") as [?|_]. }
  simpl. rewrite Hk. f_equal.
  destruct b as [|a b]; [done|]. simpl in *.
  by destruct (Ascii.eqb a sep).
Qed.

(** X17: the raw fallback for an archive named [b.tar.xz], [b] an ordinary
    file name.  When [tarfile] refuses the bytes with [ReadError], the call
    writes what the [lzma] stream delivers to the single file [b] in the
    destination, provided no directory of that name is in the way.  If the
    stream ends cleanly the call returns ["rawxz"]; if it does not, the
    call raises the decompression error and the file written so far stays
    behind. *)
Theorem extract_tar_xz_raw_fallback `{Platform}
    (archive_path dest_dir : Path) (b : string) (w w0 : World)
    (c data : bytes) (clean : bool) :
  PathOps.name archive_path = (b ++ ".tar.xz")%string ->
  no_sep b = true -> b <> "" -> b <> "." -> b <> ".." ->
  Os.mkdir_parents dest_dir w = (Ok tt, w0) ->
  Os.open_rb archive_path w0 = (Ok c, w0) ->
  tarfile_open c = Raise ReadError ->
  lzma_stream c = (data, clean) ->
  exists kd, Os.locate w0 dest_dir = Ok kd /\
    (fs w0 !! (kd ++ [b]) <> Some Dir ->
     extract_tar_xz archive_path dest_dir w =
     (if clean then Ok "rawxz" else Raise LZMAError,
      set_fs w0 (<[kd ++ [b] := File data]> (fs w0)))).
Proof.
  intros Hname Hb Hne Hdot Hdd Hmk Hopen Htf Hlz.
  assert (Hout : raw_out_name (PathOps.name archive_path) = b).
  { rewrite Hname. unfold raw_out_name.
    replace (b ++ ".tar.xz")%string with ((b ++ ".tar") ++ ".xz")%string
      by (by rewrite append_assoc).
    assert (E1 : PathOps.drop_last 3 ((b ++ ".tar") ++ ".xz") = (b ++ ".tar")%string)
      by apply (drop_last_append (b ++ ".tar") ".xz").
    assert (E2 : PathOps.drop_last 4 (b ++ ".tar") = b)
      by apply (drop_last_append b ".tar").
    by rewrite endswith_append, E1, endswith_append, E2. }
  apply (extract_tar_xz_raw archive_path dest_dir b w w0 c data clean); try done.
  - rewrite Hout. by apply parse_plain_name.
  - by apply String.eqb_neq.
Qed.

Lemma extract_tar_xz_raw_fallback_witness :
  let w0 := snd (Os.mkdir_parents Toy.out_dir Toy.w_garbage) in
  exists kd, Os.locate w0 Toy.out_dir = Ok kd /\
    (fs w0 !! (kd ++ ["junk"]) <> Some Dir ->
     @extract_tar_xz Toy.platform (Toy.src_dir // "junk.tar.xz") Toy.out_dir Toy.w_garbage =
     (Raise LZMAError, set_fs w0 (<[kd ++ ["junk"] := File []]> (fs w0)))).
Proof.
  apply (@extract_tar_xz_raw_fallback Toy.platform
           (Toy.src_dir // "junk.tar.xz") Toy.out_dir "junk" Toy.w_garbage
           (snd (Os.mkdir_parents Toy.out_dir Toy.w_garbage))
           (bytes_of "not an archive") [] false).
  - reflexivity.
  - reflexivity.
  - discriminate.
  - discriminate.
  - discriminate.
  - vm_compute. reflexivity.
  - vm_compute. reflexivity.
  - reflexivity.
  - reflexivity.
Defined.






(** ** The script run without arguments *)

(** X20: run without arguments, the script drops what [process] returns.
    Whenever [process] returns, with 0 or with 1, the run ends with exit
    status 0; in particular a missing top-level archive, which gives 1
    through [main], gives 0 here.  Only an exception changes the status. *)
Theorem run_without_arguments_exit_status `{Platform} (w : World) :
  let src := mkPath true (PathOps.resolve (cwd w) (PathOps.parse configured_src_dir)) in
  let dest := mkPath true (PathOps.resolve (cwd w) (PathOps.parse configured_dest_dir)) in
  let top := "all_attack_benign_samples.tar.xz" in
  match process src dest top w with
  | (Ok v, w') => run_without_arguments w = (Ok 0%Z, w')
  | (Raise e, w') => run_without_arguments w = (Raise e, w')
  end
  /\ forall w0,
       Os.mkdir_parents dest w = (Ok tt, w0) ->
       Os.exists_ (src // top) w0 = (Ok false, w0) ->
       fst (process src dest top w) = Ok 1%Z
       /\ exit_status (fst (run_without_arguments w)) = 0%Z.
Proof.
  intros src dest top.
  assert (Hrun : run_without_arguments w =
                 (process src dest top ;;; ret 0%Z) w) by reflexivity.
  split.
  - rewrite Hrun. unfold bind.
    by destruct (process src dest top w) as [[v|e] w'].
  - intros w0 Hmk Hex.
    assert (Hp : process src dest top w
                 = (Ok 1%Z, say w0 (MsgTopLevelNotFound top src))).
    { unfold process.
      rewrite (bind_ok _ _ _ _ _ Hmk), (bind_ok _ _ _ _ _ Hex). cbv iota.
      unfold bind. by rewrite print_say. }
    rewrite Hrun. unfold bind. by rewrite Hp.
Qed.

Lemma run_without_arguments_exit_status_witness :
  fst (@process Toy.platform
         (mkPath true ["C:\Users\kheir\Downloads"])
         (mkPath true ["C:\Users\kheir\OneDrive\Desktop\Dataset"])
         "all_attack_benign_samples.tar.xz" (Toy.world [])) = Ok 1%Z
  /\ exit_status (fst (@run_without_arguments Toy.platform (Toy.world []))) = 0%Z.
Proof.
  apply (proj2 (@run_without_arguments_exit_status Toy.platform (Toy.world []))
           (snd (Os.mkdir_parents
                   (mkPath true ["C:\Users\kheir\OneDrive\Desktop\Dataset"])
                   (Toy.world [])))).
  - vm_compute. reflexivity.
  - vm_compute. reflexivity.
Defined.

(** ** Creating the destination *)

Lemma mkdir_parents_existing p w :
  Os.is_dir p w = (Ok true, w) -> Os.mkdir_parents p w = (Ok tt, w).
Proof.
  intros Hdir. unfold Os.mkdir_parents. rewrite mkdir_rev_unfold. cbv zeta.
  rewrite rev_involutive.
  replace (mkPath (anchored p) (parts p)) with p by (by destruct p).
  destruct (is_dir_true_inv p w Hdir) as (k & Hl & Hn).
  assert (Hm : Os.mkdir1 p w = (Raise FileExistsError, w)).
  { unfold Os.mkdir1. destruct (parts p); [done|]. by rewrite Hl, Hn. }
  rewrite Hm. by rewrite (bind_ok _ _ _ _ _ Hdir).
Qed.

(** X22: the creation of the destination ([mkdir(parents=True,
    exist_ok=True)], lines 63, 188 and 229) adds directories and nothing
    else: regular files, console and working directory are as before, and
    no directory disappears.  When it succeeds the destination is a
    directory, and on a destination that already is a directory it
    succeeds without changing anything. *)
Theorem destination_creation (p : Path) (w w' : World) (r : Result unit) :
  Os.mkdir_parents p w = (r, w') ->
  only_new_dirs w w'
  /\ (r = Ok tt -> Os.is_dir p w' = (Ok true, w'))
  /\ (Os.is_dir p w = (Ok true, w) -> r = Ok tt /\ w' = w).
Proof.
  intros Hmk. split; [by eapply mkdir_parents_only_new|]. split.
  - intros ->. by apply mkdir_parents_ok_is_dir in Hmk.
  - intros Hdir. rewrite (mkdir_parents_existing p w Hdir) in Hmk.
    by injection Hmk as <- <-.
Qed.

Lemma destination_creation_witness :
  let p := mkPath true ["out"; "deep"; "er"] in
  let w' := snd (Os.mkdir_parents p Toy.w_archives) in
  only_new_dirs Toy.w_archives w'
  /\ (Ok tt = Ok tt -> Os.is_dir p w' = (Ok true, w'))
  /\ (Os.is_dir p Toy.w_archives = (Ok true, Toy.w_archives) ->
      Ok tt = Ok tt /\ w' = Toy.w_archives).
Proof.
  apply (destination_creation (mkPath true ["out"; "deep"; "er"]) Toy.w_archives).
  vm_compute. reflexivity.
Defined.
